(** * Gurtoy customer-support agent: product matcher, context cache and
      conversation-memory formatter

    A shallow embedding of [lib/productMatcher] (the second document of
    [src/lib/utils.ts]), [lib/contextCache] and [formatChatHistoryForAI]
    (documents of [src/lib/getChatMemory.ts]), followed by the properties the
    specification states about them.

    Modelling conventions
    - A JavaScript string is a sequence of UTF-16 code units.  The model uses
      [string], i.e. sequences of 8-bit characters, read as the code units
      0..255; every character class below ([\s], [\w], [\d], lower-casing) is
      the restriction of the ECMAScript one to that range.
    - JavaScript numbers that hold integers (scores, limits, timestamps in
      milliseconds) are [Z].
    - Module-level [let] variables become an explicit state record that each
      operation takes and returns; [Date.now()] is an explicit argument.
    - [console.log] output of the product matcher is not modelled; the
      context cache records its log lines and loader calls in a trace. *)

From Stdlib Require Import ZArith List Bool Ascii String Lia Permutation Sorted.
Import ListNotations.

Local Open Scope string_scope.
Local Open Scope list_scope.
Local Open Scope Z_scope.

Infix "+++" := String.append (right associativity, at level 60).

(* ===================================================================== *)
(** ** JavaScript primitives used by the sources *)
(* ===================================================================== *)

Module JS.

Definition code (c : ascii) : nat := nat_of_ascii c.

Definition between (lo hi : nat) (c : ascii) : bool :=
  (Nat.leb lo (code c) && Nat.leb (code c) hi)%bool.

(** [\d] *)
Definition isDigit (c : ascii) : bool := between 48 57 c.

(** [\w] = [A-Za-z0-9_] *)
Definition isWordChar (c : ascii) : bool :=
  (between 48 57 c || between 65 90 c || between 97 122 c
   || Nat.eqb (code c) 95)%bool.

(** [\s], which is also the set stripped by [String.prototype.trim]:
    TAB, LF, VT, FF, CR, SPACE and NBSP among the code units below 256. *)
Definition isSpace (c : ascii) : bool :=
  (between 9 13 c || Nat.eqb (code c) 32 || Nat.eqb (code c) 160)%bool.

(** One code unit of [String.prototype.toLowerCase]: A-Z and the Latin-1
    capitals U+00C0..U+00DE except the multiplication sign U+00D7. *)
Definition lowerChar (c : ascii) : ascii :=
  if (between 65 90 c || (between 192 222 c && negb (Nat.eqb (code c) 215)))%bool
  then ascii_of_nat (code c + 32)
  else c.

(** Case folding of the [i] flag (without [u]) as far as it can be observed
    against patterns made of ASCII letters: only A-Z and a-z are identified. *)
Definition foldCase (c : ascii) : ascii :=
  if between 65 90 c then ascii_of_nat (code c + 32) else c.

Fixpoint mapChars (f : ascii -> ascii) (s : string) : string :=
  match s with
  | EmptyString => EmptyString
  | String c r => String (f c) (mapChars f r)
  end.

Fixpoint filterChars (f : ascii -> bool) (s : string) : string :=
  match s with
  | EmptyString => EmptyString
  | String c r => if f c then String c (filterChars f r) else filterChars f r
  end.

Fixpoint takeWhile (f : ascii -> bool) (s : string) : string :=
  match s with
  | EmptyString => EmptyString
  | String c r => if f c then String c (takeWhile f r) else EmptyString
  end.

Fixpoint dropWhile (f : ascii -> bool) (s : string) : string :=
  match s with
  | EmptyString => EmptyString
  | String c r => if f c then dropWhile f r else s
  end.

(** [s.toLowerCase()] *)
Definition toLowerCase (s : string) : string := mapChars lowerChar s.

(** [s.length] *)
Definition strlen (s : string) : Z := Z.of_nat (String.length s).

(** Truthiness of a string value: only the empty string is falsy. *)
Definition truthy (s : string) : bool := negb (String.eqb s EmptyString).

(** [s.startsWith(p)] *)
Definition startsWith (s p : string) : bool := String.prefix p s.

(** [s.includes(sub)] *)
Fixpoint includes (s sub : string) : bool :=
  (startsWith s sub
   || match s with
      | EmptyString => false
      | String _ r => includes r sub
      end)%bool.

(** [s.trim()] *)
Fixpoint trimEnd (s : string) : string :=
  match s with
  | EmptyString => EmptyString
  | String c r =>
      match trimEnd r with
      | EmptyString => if isSpace c then EmptyString else String c EmptyString
      | r' => String c r'
      end
  end.

Definition trim (s : string) : string := trimEnd (dropWhile isSpace s).

(** Prepend a code unit to the token under construction. *)
Definition pushHead (c : ascii) (toks : list string) : list string :=
  match toks with
  | [] => [String c EmptyString]
  | w :: ws => String c w :: ws
  end.

(** [s.split(sep)] for a one-character separator string. *)
Fixpoint splitChar (sep : ascii) (s : string) : list string :=
  match s with
  | EmptyString => [EmptyString]
  | String c r =>
      if Ascii.eqb c sep then EmptyString :: splitChar sep r
      else pushHead c (splitChar sep r)
  end.

(** [s.split(/\s+/)]: [inSep] tells that the previous code unit belonged to
    a separator run, which the current whitespace then only extends. *)
Fixpoint splitWsFrom (inSep : bool) (s : string) : list string :=
  match s with
  | EmptyString => [EmptyString]
  | String c r =>
      if isSpace c then
        if inSep then splitWsFrom true r
        else EmptyString :: splitWsFrom true r
      else pushHead c (splitWsFrom false r)
  end.

Definition splitWs (s : string) : list string := splitWsFrom false s.

(** [s.replace(/pat/g, '')] for a literal pattern: [skip] counts the code
    units of a match that are still to be dropped. *)
Fixpoint removeAllFrom (pat : string) (skip : nat) (s : string) : string :=
  match s with
  | EmptyString => EmptyString
  | String c r =>
      match skip with
      | S k => removeAllFrom pat k r
      | O =>
          if (truthy pat && startsWith s pat)%bool
          then removeAllFrom pat (String.length pat - 1) r
          else String c (removeAllFrom pat O r)
      end
  end.

Definition removeAll (pat s : string) : string := removeAllFrom pat O s.

(** [s.replace(/c/g, d)] for single code units. *)
Definition replaceChar (c d : ascii) (s : string) : string :=
  mapChars (fun x => if Ascii.eqb x c then d else x) s.

(** [s.substring(a, b)]: both ends clamped to [0, length], swapped if
    needed. *)
Definition clamp (len k : Z) : Z := Z.min (Z.max k 0) len.

Definition substring (s : string) (a b : Z) : string :=
  let a' := clamp (strlen s) a in
  let b' := clamp (strlen s) b in
  let from := Z.min a' b' in
  let to := Z.max a' b' in
  String.substring (Z.to_nat from) (Z.to_nat (to - from)) s.

(** [arr.join(sep)] *)
Fixpoint join (sep : string) (l : list string) : string :=
  match l with
  | [] => EmptyString
  | [x] => x
  | x :: r => x +++ sep +++ join sep r
  end.

(** [arr.includes(x)] on an array of strings *)
Definition arrIncludes (l : list string) (x : string) : bool :=
  existsb (String.eqb x) l.

(** [arr.slice(from, to)]: negative positions count from the end. *)
Definition relIndex (len k : Z) : Z :=
  if k <? 0 then Z.max (len + k) 0 else Z.min k len.

Definition slice {A : Type} (l : list A) (from to : Z) : list A :=
  let len := Z.of_nat (List.length l) in
  let k := relIndex len from in
  let final := relIndex len to in
  firstn (Z.to_nat (Z.max (final - k) 0)) (skipn (Z.to_nat k) l).

(** [arr.slice(from)] *)
Definition sliceFrom {A : Type} (l : list A) (from : Z) : list A :=
  slice l from (Z.of_nat (List.length l)).

(** [arr.sort(cmp)].  ECMAScript requires the sort to be stable, and for a
    consistent comparator the result of a stable sort is unique; it is
    computed here by insertion from the right.  [x], which stood before
    every element of [l], stays in front of the elements it ties with. *)
Fixpoint insertBy {A : Type} (cmp : A -> A -> Z) (x : A) (l : list A) : list A :=
  match l with
  | [] => [x]
  | y :: r => if cmp x y <=? 0 then x :: y :: r else y :: insertBy cmp x r
  end.

Fixpoint sort {A : Type} (cmp : A -> A -> Z) (l : list A) : list A :=
  match l with
  | [] => []
  | x :: r => insertBy cmp x (sort cmp r)
  end.

(** [Array.from(new Set(arr))]: a [Set] keeps insertion order and ignores
    the insertion of a value it already holds. *)
Fixpoint dedupFrom (seen : list string) (l : list string) : list string :=
  match l with
  | [] => []
  | x :: r =>
      if arrIncludes seen x then dedupFrom seen r
      else x :: dedupFrom (x :: seen) r
  end.

Definition dedup (l : list string) : list string := dedupFrom [] l.

(** [parseInt] of a non-empty run of decimal digits. *)
Fixpoint parseDigits (acc : Z) (s : string) : Z :=
  match s with
  | EmptyString => acc
  | String c r => parseDigits (10 * acc + (Z.of_nat (code c) - 48)) r
  end.

Definition parseInt (digits : string) : Z := parseDigits 0 digits.

(** *** The regular expressions of the sources *)

(** Match the literal [pat] case-insensitively at the start of [s]; gives
    the matched text and the rest. *)
Fixpoint stripPrefixCI (pat s : string) : option (string * string) :=
  match pat with
  | EmptyString => Some (EmptyString, s)
  | String p pr =>
      match s with
      | EmptyString => None
      | String c r =>
          if Ascii.eqb (foldCase c) (foldCase p) then
            match stripPrefixCI pr r with
            | Some (m, rest) => Some (String c m, rest)
            | None => None
            end
          else None
      end
  end.

(** An alternation [(a1|a2|...)] at the end of a pattern, matched at the
    start of [s]: the first alternative that matches is taken. *)
Fixpoint firstAlt (alts : list string) (s : string) : option (string * string) :=
  match alts with
  | [] => None
  | a :: more =>
      match stripPrefixCI a s with
      | Some m => Some m
      | None => firstAlt more s
      end
  end.

(** [new RegExp('a1|a2|...', 'i').test(s)]: some alternative occurs
    somewhere in [s]. *)
Fixpoint testAlts (alts : list string) (s : string) : bool :=
  match firstAlt alts s with
  | Some _ => true
  | None =>
      match s with
      | EmptyString => false
      | String _ r => testAlts alts r
      end
  end.

(** [/(\d+)\s*(u1|u2|...)/i] attempted at the start of [s].  [\d+] and [\s*]
    are greedy, and giving back a digit (or a blank) leaves a digit (a
    blank) in front of the unit, where no unit can match: only the maximal
    runs need to be tried.  The result is ([match[1]], [match[2]]). *)
Definition ageMatchAt (units : list string) (s : string) : option (string * string) :=
  let digits := takeWhile isDigit s in
  if String.eqb digits EmptyString then None
  else
    match firstAlt units (dropWhile isSpace (dropWhile isDigit s)) with
    | Some (u, _) => Some (digits, u)
    | None => None
    end.

(** [s.match(/(\d+)\s*(u1|u2|...)/i)]: the leftmost match. *)
Fixpoint ageMatch (units : list string) (s : string) : option (string * string) :=
  match ageMatchAt units s with
  | Some m => Some m
  | None =>
      match s with
      | EmptyString => None
      | String _ r => ageMatch units r
      end
  end.

(** [\b] between a code unit that is a word character or not ([prev]; false
    at the start of input) and the remaining input [s]. *)
Definition boundary (prev : bool) (s : string) : bool :=
  xorb prev
       match s with
       | EmptyString => false
       | String c _ => isWordChar c
       end.

Fixpoint lastIsWord (dflt : bool) (s : string) : bool :=
  match s with
  | EmptyString => dflt
  | String c r => lastIsWord (isWordChar c) r
  end.

(** [/\b(a1|a2|...)\b/i] attempted at the start of [s]: every alternative
    is tried, since a later one may satisfy the closing [\b] where an
    earlier one does not. *)
Definition wordAltAt (alts : list string) (prev : bool) (s : string) : bool :=
  (boundary prev s
   && existsb (fun a =>
                 match stripPrefixCI a s with
                 | Some (m, rest) => boundary (lastIsWord prev m) rest
                 | None => false
                 end) alts)%bool.

(** [/\b(a1|a2|...)\b/i.test(s)] *)
Fixpoint testWordsFrom (alts : list string) (prev : bool) (s : string) : bool :=
  (wordAltAt alts prev s
   || match s with
      | EmptyString => false
      | String c r => testWordsFrom alts (isWordChar c) r
      end)%bool.

Definition testWords (alts : list string) (s : string) : bool :=
  testWordsFrom alts false s.

(** [/^(a1|a2|...)$/i.test(s)] *)
Definition testWhole (alts : list string) (s : string) : bool :=
  existsb (fun a =>
             match stripPrefixCI a s with
             | Some (_, EmptyString) => true
             | _ => false
             end) alts.

(** [s.slice(from, to)] on a string: negative positions count from the
    end. *)
Definition strSlice (s : string) (from to : Z) : string :=
  let len := strlen s in
  let k := relIndex len from in
  let final := relIndex len to in
  String.substring (Z.to_nat k) (Z.to_nat (Z.max (final - k) 0)) s.

(** [c.toUpperCase()] for a code unit that [\w] matches. *)
Definition upperWordChar (c : ascii) : ascii :=
  if between 97 122 c then ascii_of_nat (code c - 32) else c.

(** [s.replace(/\b\w/g, l => l.toUpperCase())]: [prev] tells whether the
    code unit before [s] is a word character. *)
Fixpoint capitalizeFrom (prev : bool) (s : string) : string :=
  match s with
  | EmptyString => EmptyString
  | String c r =>
      String (if (boundary prev s && isWordChar c)%bool then upperWordChar c else c)
             (capitalizeFrom (isWordChar c) r)
  end.

Definition capitalizeWords (s : string) : string := capitalizeFrom false s.

(** [s.replace(pat, '')] for a string pattern: only the first occurrence
    goes. *)
Fixpoint removeFirstFrom (pat : string) (found : bool) (skip : nat) (s : string)
    : string :=
  match s with
  | EmptyString => EmptyString
  | String c r =>
      match skip with
      | S k => removeFirstFrom pat found k r
      | O =>
          if (negb found && truthy pat && startsWith s pat)%bool
          then removeFirstFrom pat true (String.length pat - 1) r
          else String c (removeFirstFrom pat found O r)
      end
  end.

Definition removeFirst (pat s : string) : string := removeFirstFrom pat false O s.

(** Backtracking matchers, each taking the matcher [k] of the rest of the
    pattern: [cls+], a literal code unit, and [$]. *)
Fixpoint plusThen (cls : ascii -> bool) (k : string -> bool) (s : string) : bool :=
  match s with
  | EmptyString => false
  | String c r => (cls c && (k r || plusThen cls k r))%bool
  end.

Definition litThen (c : ascii) (k : string -> bool) (s : string) : bool :=
  match s with
  | EmptyString => false
  | String d r => (Ascii.eqb d c && k r)%bool
  end.

Definition atEnd (s : string) : bool :=
  match s with
  | EmptyString => true
  | String _ _ => false
  end.

End JS.

(* ===================================================================== *)
(** ** lib/productMatcher *)
(* ===================================================================== *)

Module ProductMatcher.
Import JS.

Record ProductMatch : Type := mkProductMatch {
  url : string;
  slug : string;
  name : string;
  score : Z;
  keywords : list string
}.

(** The module-level variables [productIndex] and [indexLastUpdated]. *)
Record IndexState : Type := mkIndexState {
  productIndex : option (list ProductMatch);
  indexLastUpdated : Z
}.

Definition initialState : IndexState :=
  {| productIndex := None; indexLastUpdated := 0 |}.

Definition INDEX_CACHE_TTL : Z := 10 * 60 * 1000.

Definition LF : ascii := "010"%char.

Definition productPrefix : string := "https://thegurtoys.com/products/".

Definition categories : list string :=
  ["car"; "bike"; "doll"; "toy"; "kids"; "baby"; "ride"; "push"; "scooter";
   "stroller"]%string.
Definition attributes : list string :=
  ["rechargeable"; "battery"; "electric"; "educational"; "musical";
   "interactive"]%string.
Definition ageGroups : list string :=
  ["baby"; "toddler"; "kids"; "child"; "infant"]%string.
Definition colors : list string :=
  ["pink"; "blue"; "red"; "green"; "yellow"; "white"; "black"; "navy"]%string.

Definition allKeywords : list string :=
  categories ++ attributes ++ ageGroups ++ colors.

(** [extractKeywords(name)] *)
Definition extractKeywords (name : string) : list string :=
  let words := splitWs (toLowerCase name) in
  filter (fun word =>
            (strlen word >? 2)
            && (arrIncludes allKeywords word
                || (Z.of_nat (List.length words) <=? 5)))%bool
         words.

(** The body of the loop of [buildProductIndex] for a line that passed the
    prefix test. *)
Definition productOfLine (url : string) : ProductMatch :=
  let slug := last (splitChar "/" url) EmptyString in
  let name := toLowerCase (replaceChar "-" " " (removeAll "gurtoy-" slug)) in
  {| url := url; slug := slug; name := name; score := 0;
     keywords := extractKeywords name |}.

Fixpoint indexLines (lines : list string) : list ProductMatch :=
  match lines with
  | [] => []
  | url :: rest =>
      if negb (startsWith url productPrefix) then indexLines rest
      else productOfLine url :: indexLines rest
  end.

(** [buildProductIndex(productData)] *)
Definition buildProductIndex (productData : string) : list ProductMatch :=
  let lines := filter (fun line => truthy (trim line)) (splitChar LF productData) in
  indexLines lines.

Definition ageUnits : list string := ["year"; "month"; "yr"; "mo"; "saal"]%string.

Definition categoryTable : list (list string * list string) :=
  [ (["car"; "gaadi"; "vehicle"], ["car"; "vehicle"]);
    (["bike"; "cycle"; "bicycle"], ["bike"; "cycle"]);
    (["doll"; "barbie"; "gudiya"], ["doll"]);
    (["educational"; "learning"; "study"], ["educational"]);
    (["music"; "musical"; "song"], ["musical"]);
    (["outdoor"; "bahar"], ["outdoor"; "ride"]);
    (["indoor"; "ghar"], ["indoor"]);
    (["creative"; "art"; "drawing"], ["creative"; "art"]) ]%string.

Definition stopWords : list string :=
  ["for"; "and"; "the"; "with"; "can"; "you"; "please"; "want"; "need";
   "looking"; "good"; "best"]%string.

Definition ageTerms (query : string) : list string :=
  match ageMatch ageUnits query with
  | Some (digits, _) =>
      let age := parseInt digits in
      if age <=? 2 then ["baby"; "toddler"]%string
      else if age <=? 5 then ["kids"; "child"]%string
      else ["kids"]%string
  | None => []
  end.

Definition genderTerms (query : string) : list string :=
  (if testWords ["boy"; "boys"; "ladka"; "beta"]%string query
   then ["boys"]%string else [])
  ++ (if testWords ["girl"; "girls"; "ladki"; "beti"]%string query
      then ["girls"]%string else []).

Definition categoryTerms (query : string) : list string :=
  flat_map (fun entry : list string * list string =>
              if testAlts (fst entry) query then snd entry else [])
           categoryTable.

Definition meaningfulWords (query : string) : list string :=
  let words := splitWs (filterChars (fun c => isWordChar c || isSpace c)%bool query) in
  filter (fun w => (strlen w >=? 3) && negb (testWhole stopWords w))%bool words.

(** The array [terms] of [extractSearchTerms] just before duplicates are
    removed. *)
Definition collectedTerms (query : string) : list string :=
  ageTerms query ++ genderTerms query ++ categoryTerms query
  ++ meaningfulWords query.

(** [extractSearchTerms(query)] *)
Definition extractSearchTerms (query : string) : list string :=
  dedup (collectedTerms query).

Definition popularProducts : list string :=
  ["car"; "bike"; "doll"; "educational"; "stroller"; "scooter"]%string.

(** The local [productText] of [calculateRelevanceScore]. *)
Definition productText (product : ProductMatch) : string :=
  toLowerCase (name product +++ " " +++ join " " (keywords product)).

Definition termScore (text : string) (kws : list string) (term : string) : Z :=
  (if includes text term then 10 else 0)
  + (if includes text (substring term 0 (Z.min 4 (strlen term))) then 3 else 0)
  + (if arrIncludes kws term then 15 else 0).

(** The second loop of [calculateRelevanceScore], started from [score]. *)
Definition addPopularity (text : string) (score : Z) : Z :=
  fold_left (fun score popular =>
               if includes text popular then score + 2 else score)
            popularProducts score.

(** [calculateRelevanceScore(searchTerms, product)] *)
Definition calculateRelevanceScore (searchTerms : list string)
    (product : ProductMatch) : Z :=
  let text := productText product in
  let score :=
    fold_left (fun score term => score + termScore text (keywords product) term)
              searchTerms 0 in
  addPopularity text score.

(** [{...product, score: calculateRelevanceScore(searchTerms, product)}] *)
Definition withScore (searchTerms : list string) (product : ProductMatch)
    : ProductMatch :=
  {| url := url product; slug := slug product; name := name product;
     score := calculateRelevanceScore searchTerms product;
     keywords := keywords product |}.

(** The comparator [(a, b) => b.score - a.score]. *)
Definition byScoreDesc (a b : ProductMatch) : Z := score b - score a.

(** The refresh step at the head of [findRelevantProducts]. *)
Definition refreshIndex (st : IndexState) (now : Z) (productData : string)
    : IndexState :=
  match productIndex st with
  | Some _ =>
      if now - indexLastUpdated st >? INDEX_CACHE_TTL
      then {| productIndex := Some (buildProductIndex productData);
              indexLastUpdated := now |}
      else st
  | None => {| productIndex := Some (buildProductIndex productData);
               indexLastUpdated := now |}
  end.

Definition currentIndex (st : IndexState) : list ProductMatch :=
  match productIndex st with
  | Some idx => idx
  | None => []
  end.

(** [findRelevantProducts(query, productData, limit)] run at time [now] in
    state [st]: the returned array and the state left behind. *)
Definition findRelevantProducts (st : IndexState) (now : Z)
    (query productData : string) (limit : Z)
    : list ProductMatch * IndexState :=
  let st' := refreshIndex st now productData in
  let searchTerms := extractSearchTerms (toLowerCase query) in
  match searchTerms with
  | [] => ([], st')
  | _ =>
      let scoredProducts := map (withScore searchTerms) (currentIndex st') in
      (slice (sort byScoreDesc (filter (fun p => score p >? 0) scoredProducts))
             0 limit,
       st')
  end.

(** The default value of the parameter [limit]. *)
Definition defaultLimit : Z := 3.

Definition noRecommendation : string :=
  "Current conversation doesn't require specific product recommendations. Provide general guidance.".

(** The callback of [relevantProducts.map(...)] in
    [getSmartProductContext]. *)
Definition renderProduct (p : ProductMatch) : string :=
  "- [" +++ capitalizeWords (name p) +++ "](" +++ url p +++ ")".

(** [getSmartProductContext(query, productData)] run at time [now] in state
    [st]. *)
Definition getSmartProductContext (st : IndexState) (now : Z)
    (query productData : string) : string * IndexState :=
  let (relevantProducts, st') := findRelevantProducts st now query productData 8 in
  match relevantProducts with
  | [] => (noRecommendation, st')
  | _ =>
      let productList := join (String LF EmptyString) (map renderProduct relevantProducts) in
      ("RELEVANT PRODUCTS (recommend max 3):" +++ String LF EmptyString
       +++ productList +++ String LF EmptyString +++ String LF EmptyString
       +++ "IMPORTANT: Only recommend products from this list. Verify URLs exist before suggesting.",
       st')
  end.

End ProductMatcher.

(* ===================================================================== *)
(** ** lib/contextCache *)
(* ===================================================================== *)

Module ContextCache.

Record ContextFiles : Type := mkContextFiles {
  product : string;
  contact : string;
  privacy : string;
  detail : string
}.

Record CachedContext : Type := mkCachedContext {
  data : ContextFiles;
  lastModified : Z;
  expires : Z
}.

Definition CACHE_TTL : Z := 5 * 60 * 1000.

(** How an awaited promise settles. *)
Inductive Settled (A : Type) : Type :=
  | Fulfilled (value : A)
  | Rejected (reason : string).
Arguments Fulfilled {A} value.
Arguments Rejected {A} reason.

(** [loadFunction: () => Promise<ContextFiles | null>]; [None] is [null]. *)
Definition Loader : Type := unit -> Settled (option ContextFiles).

(** What one call does besides returning: its log lines, in order, and the
    call of the loader. *)
Inductive Event : Type :=
  | LogUsingCached
  | LogLoadingFresh
  | LoaderCalled
  | LogUsingStale
  | LogCachedSuccessfully.

Record Outcome : Type := mkOutcome {
  settled : Settled (option ContextFiles);
  cacheAfter : option CachedContext;
  trace : list Event
}.

(** The guard [contextCache && now < contextCache.expires]: the entry that
    passes it, if any. *)
Definition validEntry (contextCache : option CachedContext) (now : Z)
    : option CachedContext :=
  match contextCache with
  | Some c => if now <? expires c then Some c else None
  | None => None
  end.

(** [getCachedContextFiles(loadFunction)] run at time [now] with the module
    variable [contextCache]; the call is taken as one step, nothing else
    touching the variable while the loader is awaited.  There is no
    [try]/[catch] around the [await]: a rejection of the loader is the
    rejection of the call. *)
Definition getCachedContextFiles (contextCache : option CachedContext)
    (now : Z) (loadFunction : Loader) : Outcome :=
  match validEntry contextCache now with
  | Some c =>
      {| settled := Fulfilled (Some (data c));
         cacheAfter := contextCache;
         trace := [LogUsingCached] |}
  | None =>
      match loadFunction tt with
      | Rejected e =>
          {| settled := Rejected e;
             cacheAfter := contextCache;
             trace := [LogLoadingFresh; LoaderCalled] |}
      | Fulfilled None =>
          match contextCache with
          | Some c =>
              {| settled := Fulfilled (Some (data c));
                 cacheAfter := contextCache;
                 trace := [LogLoadingFresh; LoaderCalled; LogUsingStale] |}
          | None =>
              {| settled := Fulfilled None;
                 cacheAfter := contextCache;
                 trace := [LogLoadingFresh; LoaderCalled] |}
          end
      | Fulfilled (Some freshData) =>
          {| settled := Fulfilled (Some freshData);
             cacheAfter := Some {| data := freshData;
                                   lastModified := now;
                                   expires := now + CACHE_TTL |};
             trace := [LogLoadingFresh; LoaderCalled; LogCachedSuccessfully] |}
      end
  end.

(** [clearContextCache()] *)
Definition clearContextCache (contextCache : option CachedContext)
    : option CachedContext := None.

Definition loaderCalls (t : list Event) : nat :=
  List.length (filter (fun e => match e with LoaderCalled => true | _ => false end) t).

(** The object returned by [getCacheStatus]: [{ status: 'empty' }] or the
    four-field one. *)
Inductive CacheStatus : Type :=
  | StatusEmpty
  | StatusEntry (status : string) (age timeToExpiry : Z) (lastModifiedISO : string).

Section Status.
(** [new Date(t).toISOString()], a function of the language. *)
Variable toISOString : Z -> string.

(** [getCacheStatus()] run at time [now]. *)
Definition getCacheStatus (contextCache : option CachedContext) (now : Z)
    : CacheStatus :=
  match contextCache with
  | None => StatusEmpty
  | Some c =>
      let isExpired := now >=? expires c in
      StatusEntry (if isExpired then "expired" else "valid")
                  (now - lastModified c)
                  (expires c - now)
                  (toISOString (lastModified c))
  end.
End Status.

End ContextCache.

(* ===================================================================== *)
(** ** lib/getChatMemory: the conversation-memory formatter *)
(* ===================================================================== *)

Module ChatMemory.
Import JS.

Inductive Role : Type := user | assistant.

Record Chat : Type := mkChat {
  id : string;
  user_id : string;
  message : string;
  role : Role;
  created_at : string
}.

Definition roleText (r : Role) : string :=
  match r with
  | user => "user"
  | assistant => "assistant"
  end.

Definition isUser (chat : Chat) : bool :=
  match role chat with
  | user => true
  | assistant => false
  end.

Definition newline : string := String "010"%char EmptyString.

Definition sentinel : string := "New conversation - no previous context.".

Definition childAgeUnits : list string := ["year"; "month"; "yr"; "mo"]%string.

(** [extractChildAge(chatHistory)] *)
Fixpoint extractChildAge (chatHistory : list Chat) : option string :=
  match chatHistory with
  | [] => None
  | chat :: rest =>
      if isUser chat then
        match ageMatch childAgeUnits (message chat) with
        | Some (m1, m2) => Some (m1 +++ " " +++ toLowerCase m2)
        | None => extractChildAge rest
        end
      else extractChildAge rest
  end.

Definition interestKeywords : list string :=
  ["educational"; "puzzle"; "toy"; "car"; "doll"; "bike"; "outdoor"; "indoor";
   "creative"; "building"; "musical"]%string.

(** The [keywords.forEach] of [extractInterests] for one user message. *)
Definition noteInterests (msg : string) (interests : list string) : list string :=
  fold_left (fun interests keyword =>
               if (includes (toLowerCase msg) keyword
                   && negb (arrIncludes interests keyword))%bool
               then interests ++ [keyword] else interests)
            interestKeywords interests.

(** [extractInterests(chatHistory)] *)
Definition extractInterests (chatHistory : list Chat) : list string :=
  let interests :=
    fold_left (fun interests chat =>
                 if isUser chat then noteInterests (message chat) interests
                 else interests)
              chatHistory [] in
  slice interests 0 3.

(** The callback of [chatHistory.slice(-10).map(...)]. *)
Definition renderChat (chat : Chat) : string :=
  roleText (role chat) +++ ": " +++ substring (message chat) 0 100
  +++ (if strlen (message chat) >? 100 then "..." else EmptyString).

Definition contextSummary (chatHistory : list Chat) : string :=
  let s1 :=
    match extractChildAge chatHistory with
    | Some childAge => "Child age: " +++ childAge +++ ". "
    | None => EmptyString
    end in
  let interests := extractInterests chatHistory in
  if (Z.of_nat (List.length interests) >? 0)
  then s1 +++ "Interests: " +++ join ", " interests +++ ". "
  else s1.

(** [formatChatHistoryForAI(chatHistory)] *)
Definition formatChatHistoryForAI (chatHistory : list Chat) : string :=
  match chatHistory with
  | [] => sentinel
  | _ =>
      let recentHistory := join newline (map renderChat (sliceFrom chatHistory (-10))) in
      "Context: " +++ contextSummary chatHistory +++ newline
      +++ "Recent messages:" +++ newline +++ recentHistory +++ newline
  end.

(** What the chat store answers to the query of [getChatHistory]:
    [{ data, error }]. *)
Record QueryResult : Type := mkQueryResult {
  queryData : option (list Chat);
  queryError : bool
}.

(** [getChatHistory(userId, limit)]: the store is asked for the newest
    [limit] rows of the user, newest first; whatever goes wrong, including a
    reply without rows, ends in the empty list. *)
Definition getChatHistory
    (store : string -> Z -> ContextCache.Settled QueryResult)
    (userId : string) (limit : Z) : list Chat :=
  match store userId limit with
  | ContextCache.Rejected _ => []
  | ContextCache.Fulfilled reply =>
      if queryError reply then []
      else
        match queryData reply with
        | Some rows => rev rows
        | None => []
        end
  end.

End ChatMemory.

(* ===================================================================== *)
(** ** lib/loadContextFiles *)
(* ===================================================================== *)

Module LoadContextFiles.
Import JS ContextCache.

(** [fs.existsSync] and [fs.readFileSync] on one local file. *)
Inductive LocalRead : Type :=
  | LocalMissing
  | LocalThrows
  | LocalContent (content : string).

(** The blob of a download: [data.text()] gives the text or rejects. *)
Inductive Blob : Type :=
  | BlobText (text : string)
  | BlobUnreadable (reason : string).

(** [{ data, error }] of a storage download. *)
Record DownloadReply : Type := mkDownloadReply {
  replyData : option Blob;
  replyError : bool
}.

(** What a run of [loadContextFiles] finds around it. *)
Record Env : Type := mkEnv {
  development : bool;
  readLocal : string -> LocalRead;
  download : string -> Settled DownloadReply
}.

(** [Partial<ContextFiles>] *)
Record PartialFiles : Type := mkPartialFiles {
  pProduct : option string;
  pContact : option string;
  pPrivacy : option string;
  pDetail : option string
}.

Definition noFiles : PartialFiles :=
  {| pProduct := None; pContact := None; pPrivacy := None; pDetail := None |}.

Definition files : list string :=
  ["product.txt"; "contact.txt"; "privacy.txt"; "detail.txt"]%string.

(** [contextFiles[key] = content] *)
Definition setKey (key content : string) (cf : PartialFiles) : PartialFiles :=
  if String.eqb key "product" then
    {| pProduct := Some content; pContact := pContact cf;
       pPrivacy := pPrivacy cf; pDetail := pDetail cf |}
  else if String.eqb key "contact" then
    {| pProduct := pProduct cf; pContact := Some content;
       pPrivacy := pPrivacy cf; pDetail := pDetail cf |}
  else if String.eqb key "privacy" then
    {| pProduct := pProduct cf; pContact := pContact cf;
       pPrivacy := Some content; pDetail := pDetail cf |}
  else if String.eqb key "detail" then
    {| pProduct := pProduct cf; pContact := pContact cf;
       pPrivacy := pPrivacy cf; pDetail := Some content |}
  else cf.

(** [fileName.replace('.txt', '')] *)
Definition keyOf (fileName : string) : string := removeFirst ".txt" fileName.

(** Truthiness of a possibly missing string property. *)
Definition present (v : option string) : bool :=
  match v with
  | Some s => truthy s
  | None => false
  end.

(** [contextFiles.product && contextFiles.contact && contextFiles.privacy
    && contextFiles.detail], and the object seen as [ContextFiles] when it
    holds. *)
Definition complete (cf : PartialFiles) : option ContextFiles :=
  if (present (pProduct cf) && present (pContact cf)
      && present (pPrivacy cf) && present (pDetail cf))%bool
  then
    match pProduct cf, pContact cf, pPrivacy cf, pDetail cf with
    | Some a, Some b, Some c, Some d =>
        Some {| product := a; contact := b; privacy := c; detail := d |}
    | _, _, _, _ => None
    end
  else None.

(** The loop over the local files, each read guarded by its own [try]. *)
Definition loadLocal (env : Env) (cf : PartialFiles) : PartialFiles :=
  fold_left (fun cf fileName =>
               match readLocal env fileName with
               | LocalContent content => setKey (keyOf fileName) content cf
               | LocalMissing | LocalThrows => cf
               end)
            files cf.

(** The [async] callback of [files.map(...)]: [None] is its [null]. *)
Definition fetchFile (env : Env) (fileName : string)
    : Settled (option (string * string)) :=
  match download env fileName with
  | Rejected e => Rejected e
  | Fulfilled first =>
      let retried :=
        if (replyError first && String.eqb fileName "contact.txt")%bool
        then download env "Contact.txt"
        else Fulfilled first in
      match retried with
      | Rejected e => Rejected e
      | Fulfilled reply =>
          if replyError reply then Fulfilled None
          else
            match replyData reply with
            | None => Fulfilled None
            | Some (BlobText text) => Fulfilled (Some (fileName, text))
            | Some (BlobUnreadable e) => Rejected e
            end
      end
  end.

(** [await Promise.all(promises)]: all the values, or a rejection when some
    promise rejects (the reason kept here is that of the first one in array
    order; [loadContextFiles] only logs it). *)
Fixpoint promiseAll {A : Type} (promises : list (Settled A)) : Settled (list A) :=
  match promises with
  | [] => Fulfilled []
  | Rejected e :: _ => Rejected e
  | Fulfilled v :: rest =>
      match promiseAll rest with
      | Rejected e => Rejected e
      | Fulfilled vs => Fulfilled (v :: vs)
      end
  end.

(** The loop over [results]. *)
Definition storeResults (results : list (option (string * string)))
    (cf : PartialFiles) : PartialFiles :=
  fold_left (fun cf result =>
               match result with
               | Some (fileName, content) => setKey (keyOf fileName) content cf
               | None => cf
               end)
            results cf.

(** The body of the [try] block of [loadContextFiles]. *)
Definition loadContextFilesBody (env : Env) : Settled (option ContextFiles) :=
  let local := if development env then loadLocal env noFiles else noFiles in
  match (if development env then complete local else None) with
  | Some all => Fulfilled (Some all)
  | None =>
      match promiseAll (map (fetchFile env) files) with
      | Rejected e => Rejected e
      | Fulfilled results => Fulfilled (complete (storeResults results local))
      end
  end.

(** [loadContextFiles()]: the [catch] turns every failure of the body into
    [null]. *)
Definition loadContextFiles (env : Env) : Settled (option ContextFiles) :=
  match loadContextFilesBody env with
  | Rejected _ => Fulfilled None
  | Fulfilled r => Fulfilled r
  end.

End LoadContextFiles.

(* ===================================================================== *)
(** ** lib/utils: text helpers *)
(* ===================================================================== *)

Module Utils.
Import JS.

(** [truncateText(text, maxLength)] *)
Definition truncateText (text : string) (maxLength : Z) : string :=
  if strlen text <=? maxLength then text
  else strSlice text 0 maxLength +++ "...".

(** The complement of the class [<>]. *)
Definition notAngle (c : ascii) : bool :=
  negb (Ascii.eqb c "<" || Ascii.eqb c ">").

(** [sanitizeInput(input)] *)
Definition sanitizeInput (input : string) : string :=
  trim (filterChars notAngle input).

(** The class [^\s@]. *)
Definition emailChar (c : ascii) : bool :=
  negb (isSpace c || Ascii.eqb c "@").

(** [isValidEmail(email)]: [/^[^\s@]+@[^\s@]+\.[^\s@]+$/.test(email)] *)
Definition isValidEmail (email : string) : bool :=
  plusThen emailChar
    (litThen "@"
       (plusThen emailChar
          (litThen "."
             (plusThen emailChar atEnd))))
    email.

End Utils.

(* ===================================================================== *)
(** ** Vocabulary of the statements *)
(* ===================================================================== *)

Import ProductMatcher ContextCache ChatMemory.

(** [p] is an initial segment of [l]. *)
Definition isPrefixOf {A : Type} (p l : list A) : Prop :=
  exists rest, l = p ++ rest.

(** The elements of [l] whose score is [s], in the order of [l]. *)
Definition withScoreOf (s : Z) (l : list ProductMatcher.ProductMatch)
    : list ProductMatcher.ProductMatch :=
  filter (fun p => ProductMatcher.score p =? s) l.

(** No line of the catalog text starts with the product URL prefix. *)
Definition noProductLine (productData : string) : Prop :=
  forall line,
    In line (JS.splitChar ProductMatcher.LF productData) ->
    JS.startsWith line ProductMatcher.productPrefix = false.

(** The index has to be rebuilt at time [now]. *)
Definition indexStale (st : ProductMatcher.IndexState) (now : Z) : Prop :=
  ProductMatcher.productIndex st = None
  \/ now - ProductMatcher.indexLastUpdated st > ProductMatcher.INDEX_CACHE_TTL.

(** The first [n] code units of a string. *)
Fixpoint firstChars (n : nat) (s : string) : string :=
  match n, s with
  | S k, String c r => String c (firstChars k r)
  | _, _ => EmptyString
  end.

(** A message cut to 100 characters, with an ellipsis exactly when something
    was cut. *)
Definition truncated100 (msg : string) : string :=
  if Nat.ltb 100 (String.length msg) then firstChars 100 msg +++ "..."
  else msg.

(** One line of the recent-messages block. *)
Definition turnLine (chat : ChatMemory.Chat) : string :=
  ChatMemory.roleText (ChatMemory.role chat) +++ ": "
  +++ truncated100 (ChatMemory.message chat).

(** The last [n] elements of a list. *)
Definition lastN {A : Type} (n : nat) (l : list A) : list A :=
  skipn (List.length l - n) l.

(** [x] occurs in [l] for the first time right after [pre]. *)
Definition firstSeenAfter (pre : list string) (x : string) (l : list string) : Prop :=
  ~ In x pre /\ exists post, l = pre ++ x :: post.

(** The candidates of a call: every entry of the index in use, scored
    against the terms of the query. *)
Definition scoredIndex (st' : IndexState) (query : string) : list ProductMatch :=
  map (withScore (extractSearchTerms (JS.toLowerCase query))) (currentIndex st').

(** A catalog of two products, both matching the query "car". *)
Definition catalogTwoCars : string :=
  "https://thegurtoys.com/products/gurtoy-car" +++ String LF
  "https://thegurtoys.com/products/gurtoy-bike-car".

(** The state left by a first call, at time 0, on [catalogTwoCars]. *)
Definition warmState : IndexState :=
  snd (findRelevantProducts initialState 0 "car" catalogTwoCars 3).

(** A catalog line whose product name is short and has a two-letter word. *)
Definition goKartLine : string :=
  "https://thegurtoys.com/products/gurtoy-go-kart".

(** The index entry of the first line of [catalogTwoCars]. *)
Definition carEntry : ProductMatch :=
  productOfLine "https://thegurtoys.com/products/gurtoy-car".

(** Sample context documents, loaders and a cache entry that expired. *)
Definition docsA : ContextFiles :=
  {| product := "https://thegurtoys.com/products/gurtoy-car";
     contact := "9592020898"; privacy := "privacy"; detail := "detail" |}.

Definition loadOk (d : ContextFiles) : Loader := fun _ => Fulfilled (Some d).
Definition loadNull : Loader := fun _ => Fulfilled None.
Definition loadThrows : Loader := fun _ => Rejected "storage unreachable".

Definition expiredEntry : CachedContext :=
  {| data := docsA; lastModified := 0; expires := CACHE_TTL |}.

(** A one-turn history. *)
Definition oneTurn : list Chat :=
  [ {| id := "1"; user_id := "u"; message := "a car for my 3 year old";
       role := user; created_at := "2025-01-01" |} ].

Import LoadContextFiles Utils.

(** Every code unit of [s] satisfies [P]. *)
Fixpoint allChars (P : ascii -> bool) (s : string) : bool :=
  match s with
  | EmptyString => true
  | String c r => (P c && allChars P r)%bool
  end.

(** The number of occurrences of [c] in [s]. *)
Fixpoint countChar (c : ascii) (s : string) : nat :=
  match s with
  | EmptyString => O
  | String d r => if Ascii.eqb d c then S (countChar c r) else countChar c r
  end.

(** [s] starts, or ends, with a whitespace code unit. *)
Definition startsWithSpace (s : string) : bool :=
  match s with
  | EmptyString => false
  | String c _ => JS.isSpace c
  end.

Fixpoint endsWithSpace (s : string) : bool :=
  match s with
  | EmptyString => false
  | String c EmptyString => JS.isSpace c
  | String _ r => endsWithSpace r
  end.

(** [c] is its own lower case. *)
Definition isLower (c : ascii) : bool := Ascii.eqb (JS.lowerChar c) c.

Definition notSpace (c : ascii) : bool := negb (JS.isSpace c).

(** The terms that [extractSearchTerms] adds from its own tables: the age
    buckets, the gender signals and the category keywords. *)
Definition fixedTerms : list string :=
  ["baby"; "toddler"; "kids"; "child"; "boys"; "girls"]%string
  ++ flat_map snd categoryTable.

(** What holds of every search term: three characters or more, word
    characters only, not a stop word. *)
Definition soundTerm (t : string) : bool :=
  ((3 <=? JS.strlen t) && negb (JS.testWhole stopWords t)
   && allChars JS.isWordChar t)%bool.

(** The states of the product index that calls of the two exported
    operations can produce, starting from the freshly loaded module, each
    with the catalog texts that were passed in on the way, latest first. *)
Inductive reachedWith : list string -> IndexState -> Prop :=
  | reached_initial : reachedWith [] initialState
  | reached_find (seen : list string) (st : IndexState) (now : Z)
      (query productData : string) (limit : Z) :
      reachedWith seen st ->
      reachedWith (productData :: seen)
                  (snd (findRelevantProducts st now query productData limit))
  | reached_context (seen : list string) (st : IndexState) (now : Z)
      (query productData : string) :
      reachedWith seen st ->
      reachedWith (productData :: seen)
                  (snd (getSmartProductContext st now query productData)).

(** The values of the context cache that calls of its operations can
    produce, starting from the freshly loaded module, whatever the loaders
    and the times. *)
Inductive cacheReachable : option CachedContext -> Prop :=
  | cache_initial : cacheReachable None
  | cache_get (cache : option CachedContext) (now : Z) (load : Loader) :
      cacheReachable cache ->
      cacheReachable (cacheAfter (getCachedContextFiles cache now load))
  | cache_clear (cache : option CachedContext) :
      cacheReachable cache -> cacheReachable (clearContextCache cache).

(** All four documents are non-empty. *)
Definition completeDocs (cf : ContextFiles) : Prop :=
  JS.truthy (product cf) = true /\ JS.truthy (contact cf) = true
  /\ JS.truthy (privacy cf) = true /\ JS.truthy (detail cf) = true.

(** The cache values reachable when every load goes through
    [loadContextFiles], as in the request handlers. *)
Inductive cacheServed : option CachedContext -> Prop :=
  | served_initial : cacheServed None
  | served_get (cache : option CachedContext) (now : Z) (env : Env) :
      cacheServed cache ->
      cacheServed (cacheAfter (getCachedContextFiles cache now
                                 (fun _ => loadContextFiles env)))
  | served_clear (cache : option CachedContext) :
      cacheServed cache -> cacheServed (clearContextCache cache).

(** A development machine on which the four local files are readable and
    the storage service is not. *)
Definition localEnv : Env :=
  {| development := true;
     readLocal := fun fileName =>
                    LocalContent ("contents of " +++ fileName);
     download := fun _ => Rejected "offline" |}.

(** A chat store that answers with three rows, newest first, and one that
    fails. *)
Definition threeRows : list Chat :=
  [ {| id := "3"; user_id := "u"; message := "a doll then"; role := user;
       created_at := "2025-01-03" |};
    {| id := "2"; user_id := "u"; message := "Which one?"; role := assistant;
       created_at := "2025-01-02" |};
    {| id := "1"; user_id := "u"; message := "a toy for my 18 Months old";
       role := user; created_at := "2025-01-01" |} ].

Definition storeOk : string -> Z -> Settled QueryResult :=
  fun _ _ => Fulfilled {| queryData := Some threeRows; queryError := false |}.

Definition storeDown : string -> Z -> Settled QueryResult :=
  fun _ _ => Rejected "fetch failed".


(** A production machine whose storage service serves every file, the
    contact file under its capitalised name only. *)
Definition storageEnv : Env :=
  {| development := false;
     readLocal := fun _ => LocalMissing;
     download := fun fileName =>
                   if String.eqb fileName "contact.txt"
                   then Fulfilled {| replyData := None; replyError := true |}
                   else Fulfilled {| replyData := Some (BlobText ("stored " +++ fileName));
                                     replyError := false |} |}.

Definition storedDocs : ContextFiles :=
  {| product := "stored product.txt"; contact := "stored Contact.txt";
     privacy := "stored privacy.txt"; detail := "stored detail.txt" |}.

(* ===================================================================== *)
(** ** The embedding on small inputs *)
(* ===================================================================== *)

Example splitWs_pieces :
  JS.splitWs " a  b " = [EmptyString; "a"; "b"; EmptyString]%string
  /\ JS.splitWs EmptyString = [EmptyString]%string
  /\ JS.splitChar "/" "a//b/" = ["a"; EmptyString; "b"; EmptyString]%string.
Proof. repeat split. Qed.

Example trim_both_ends : JS.trim "  a b  " = "a b".
Proof. reflexivity. Qed.

Example removeAll_every_occurrence :
  JS.removeAll "gurtoy-" "gurtoy-x-gurtoy-gurtoy-y" = "x-y".
Proof. reflexivity. Qed.

Example slice_negative_end : JS.slice [1; 2; 3] 0 (-1) = [1; 2].
Proof. reflexivity. Qed.

Example sort_is_stable :
  JS.sort (fun a b : Z * string => fst b - fst a)
          [(1, "a"); (3, "b"); (1, "c"); (3, "d")]%string
  = [(3, "b"); (3, "d"); (1, "a"); (1, "c")]%string.
Proof. reflexivity. Qed.

Example age_pattern_leftmost :
  JS.ageMatch ageUnits "12 3 Years or 4 months" = Some ("3", "Year")
  /\ JS.ageMatch ageUnits "year 3" = None.
Proof. split; reflexivity. Qed.

Example word_boundaries :
  JS.testWords ["boy"; "boys"]%string "two boys." = true
  /\ JS.testWords ["boy"; "boys"]%string "tomboy" = false
  /\ JS.testWords ["boy"; "boys"]%string "boyhood" = false.
Proof. repeat split. Qed.

(** The line of the specification's index-builder example. *)
Example buildProductIndex_push_car :
  buildProductIndex
    "https://thegurtoys.com/products/gurtoy-push-car-rabbit-car-for-kids"
  = [ {| url := "https://thegurtoys.com/products/gurtoy-push-car-rabbit-car-for-kids";
         slug := "gurtoy-push-car-rabbit-car-for-kids";
         name := "push car rabbit car for kids";
         score := 0;
         keywords := ["push"; "car"; "car"; "kids"]%string |} ].
Proof. vm_compute. reflexivity. Qed.

Example formatChatHistoryForAI_one_turn :
  formatChatHistoryForAI oneTurn
  = "Context: Child age: 3 year. Interests: car. " +++ newline
    +++ "Recent messages:" +++ newline
    +++ "user: a car for my 3 year old" +++ newline.
Proof. vm_compute. reflexivity. Qed.

(* ===================================================================== *)
(** ** Facts about the array primitives *)
(* ===================================================================== *)

Section SortFacts.
Context {A : Type}.
Variable key : A -> Z.

(** Descending order on [key], as the comparator [(a, b) => key b - key a]
    requests it. *)
Let cmp (a b : A) : Z := key b - key a.

Lemma insertBy_perm (x : A) (l : list A) :
  Permutation (JS.insertBy cmp x l) (x :: l).
Proof.
  induction l as [|y r IH]; simpl.
  - apply Permutation_refl.
  - destruct (cmp x y <=? 0).
    + apply Permutation_refl.
    + eapply perm_trans; [apply perm_skip, IH | apply perm_swap].
Qed.

Lemma sort_perm (l : list A) : Permutation (JS.sort cmp l) l.
Proof.
  induction l as [|x r IH]; simpl.
  - constructor.
  - eapply perm_trans; [apply insertBy_perm | now apply perm_skip].
Qed.

Lemma insertBy_sorted (x : A) (l : list A) :
  StronglySorted (fun a b => key a >= key b) l ->
  StronglySorted (fun a b => key a >= key b) (JS.insertBy cmp x l).
Proof.
  induction 1 as [|y r Hr IH Hy]; simpl.
  - repeat constructor.
  - destruct (Z.leb_spec (cmp x y) 0) as [Hle|Hgt]; unfold cmp in *.
    + constructor; [now constructor|].
      constructor; [lia|].
      eapply Forall_impl; [|exact Hy]. simpl; intros; lia.
    + constructor; [exact IH|].
      eapply Permutation_Forall; [apply Permutation_sym, insertBy_perm|].
      constructor; [lia | exact Hy].
Qed.

Lemma sort_sorted (l : list A) :
  StronglySorted (fun a b => key a >= key b) (JS.sort cmp l).
Proof.
  induction l as [|x r IH]; simpl.
  - constructor.
  - now apply insertBy_sorted.
Qed.

(** Insertion moves [x] only past elements of strictly larger key, so no
    class of equal keys sees its order change. *)
Lemma insertBy_class (s : Z) (x : A) (l : list A) :
  filter (fun a => key a =? s) (JS.insertBy cmp x l)
  = filter (fun a => key a =? s) (x :: l).
Proof.
  induction l as [|y r IH]; [reflexivity|].
  simpl JS.insertBy.
  destruct (Z.leb_spec (cmp x y) 0) as [Hle|Hgt]; [reflexivity|].
  unfold cmp in Hgt.
  change (filter (fun a => key a =? s) (y :: JS.insertBy cmp x r))
    with (if key y =? s
          then y :: filter (fun a => key a =? s) (JS.insertBy cmp x r)
          else filter (fun a => key a =? s) (JS.insertBy cmp x r)).
  rewrite IH. simpl.
  destruct (Z.eqb_spec (key y) s), (Z.eqb_spec (key x) s);
    try reflexivity; lia.
Qed.

Lemma sort_stable (s : Z) (l : list A) :
  filter (fun a => key a =? s) (JS.sort cmp l)
  = filter (fun a => key a =? s) l.
Proof.
  induction l as [|x r IH]; [reflexivity|].
  simpl JS.sort. rewrite insertBy_class. simpl. now rewrite IH.
Qed.
End SortFacts.

Section SliceFacts.
Context {A : Type}.

Lemma slice_from_zero (l : list A) (limit : Z) :
  JS.slice l 0 limit
  = firstn (Z.to_nat (JS.relIndex (Z.of_nat (List.length l)) limit)) l.
Proof.
  unfold JS.slice.
  assert (H0 : JS.relIndex (Z.of_nat (List.length l)) 0 = 0).
  { unfold JS.relIndex. simpl. lia. }
  rewrite H0. simpl skipn.
  assert (H1 : 0 <= JS.relIndex (Z.of_nat (List.length l)) limit).
  { unfold JS.relIndex. destruct (limit <? 0) eqn:E; lia. }
  f_equal. f_equal. lia.
Qed.

Lemma slice_length_le (l : list A) (limit : Z) :
  0 <= limit -> Z.of_nat (List.length (JS.slice l 0 limit)) <= limit.
Proof.
  intros Hl. rewrite slice_from_zero, length_firstn.
  unfold JS.relIndex. destruct (Z.ltb_spec limit 0); lia.
Qed.

Lemma slice_covers (l : list A) (limit : Z) :
  Z.of_nat (List.length l) <= limit -> JS.slice l 0 limit = l.
Proof.
  intros Hl. rewrite slice_from_zero. apply firstn_all2.
  unfold JS.relIndex. destruct (Z.ltb_spec limit 0); lia.
Qed.

Lemma slice_nil (from to : Z) : JS.slice (@nil A) from to = [].
Proof.
  unfold JS.slice. rewrite skipn_nil. apply firstn_nil.
Qed.

Lemma slice_prefix (l : list A) (limit : Z) :
  isPrefixOf (JS.slice l 0 limit) l.
Proof.
  rewrite slice_from_zero.
  exists (skipn (Z.to_nat (JS.relIndex (Z.of_nat (List.length l)) limit)) l).
  symmetry. apply firstn_skipn.
Qed.

Lemma prefix_Forall (P : A -> Prop) (p l : list A) :
  isPrefixOf p l -> Forall P l -> Forall P p.
Proof.
  intros [rest ->] H. apply Forall_app in H. tauto.
Qed.

Lemma prefix_filter (f : A -> bool) (p l : list A) :
  isPrefixOf p l -> isPrefixOf (filter f p) (filter f l).
Proof.
  intros [rest ->]. exists (filter f rest). apply filter_app.
Qed.

Lemma prefix_sorted (R : A -> A -> Prop) (p l : list A) :
  isPrefixOf p l -> StronglySorted R l -> StronglySorted R p.
Proof.
  intros [rest ->]. induction p as [|x p IH]; simpl; intros H.
  - constructor.
  - inversion H as [|? ? Hs Hf]; subst. constructor.
    + now apply IH.
    + apply Forall_app in Hf. tauto.
Qed.
End SliceFacts.

(* ===================================================================== *)
(** ** Product matcher: ranking *)
(* ===================================================================== *)

Lemma findRelevantProducts_unfold st now query productData limit :
  findRelevantProducts st now query productData limit
  = (match extractSearchTerms (JS.toLowerCase query) with
     | [] => []
     | _ => JS.slice
              (JS.sort byScoreDesc
                 (filter (fun p => score p >? 0)
                    (scoredIndex (refreshIndex st now productData) query)))
              0 limit
     end,
     refreshIndex st now productData).
Proof.
  unfold findRelevantProducts, scoredIndex.
  destruct (extractSearchTerms (JS.toLowerCase query)); reflexivity.
Qed.

Lemma positive_filter_Forall (l : list ProductMatch) :
  Forall (fun p => score p > 0) (filter (fun p => score p >? 0) l).
Proof.
  apply Forall_forall. intros p Hp. apply filter_In in Hp.
  destruct Hp as [_ Hp]. lia.
Qed.

Lemma ranked_positive (l : list ProductMatch) :
  Forall (fun p => score p > 0)
         (JS.sort byScoreDesc (filter (fun p => score p >? 0) l)).
Proof.
  eapply Permutation_Forall.
  - apply Permutation_sym. apply (sort_perm score).
  - apply positive_filter_Forall.
Qed.

(** Among the kept candidates of one score, ranking changes nothing. *)
Lemma ranked_class (s : Z) (l : list ProductMatch) :
  withScoreOf s (JS.sort byScoreDesc (filter (fun p => score p >? 0) l))
  = withScoreOf s (filter (fun p => score p >? 0) l).
Proof. apply (sort_stable score). Qed.

Lemma class_of_positive (s : Z) (l : list ProductMatch) :
  0 < s ->
  withScoreOf s (filter (fun p => score p >? 0) l) = withScoreOf s l.
Proof.
  intros Hs. unfold withScoreOf. induction l as [|p r IH]; [reflexivity|].
  simpl. destruct (Z.gtb_spec (score p) 0) as [Hp|Hp]; simpl.
  - now rewrite IH.
  - rewrite IH. destruct (Z.eqb_spec (score p) s); [lia | reflexivity].
Qed.

(** C1: for every query, catalog text and prior index state, and for every
    [limit], which counts entries and so is not negative, at most [limit]
    entries are returned; every returned entry has a score above 0, the
    returned list is in descending order of score, and the entries of any
    one score are an initial segment of the index entries of that score, in
    index order (ties keep catalog order).  The last three hold whatever
    number is passed as [limit]. *)
Theorem findRelevantProducts_ranked :
  forall (st : IndexState) (now : Z) (query productData : string) (limit : Z),
    let out := fst (findRelevantProducts st now query productData limit) in
    let st' := snd (findRelevantProducts st now query productData limit) in
    (0 <= limit -> Z.of_nat (List.length out) <= limit)
    /\ Forall (fun p => score p > 0) out
    /\ StronglySorted (fun a b => score a >= score b) out
    /\ (forall s, isPrefixOf (withScoreOf s out)
                             (withScoreOf s (scoredIndex st' query))).
Proof.
  intros st now query productData limit.
  rewrite findRelevantProducts_unfold. cbn [fst snd]. cbv zeta.
  destruct (extractSearchTerms (JS.toLowerCase query)) as [|t ts] eqn:Et.
  - repeat split.
    + intros; simpl; lia.
    + constructor.
    + constructor.
    + intros s. exists (withScoreOf s (scoredIndex (refreshIndex st now productData) query)).
      reflexivity.
  - set (kept := filter (fun p => score p >? 0)
                        (scoredIndex (refreshIndex st now productData) query)).
    repeat split.
    + intros Hl. now apply slice_length_le.
    + eapply prefix_Forall; [apply slice_prefix | apply ranked_positive].
    + eapply prefix_sorted; [apply slice_prefix | apply (sort_sorted score)].
    + intros s.
      destruct (Z.ltb_spec 0 s) as [Hs|Hs].
      * assert (Hcls : withScoreOf s (scoredIndex (refreshIndex st now productData) query)
                       = withScoreOf s (JS.sort byScoreDesc kept)).
        { unfold kept. rewrite ranked_class. symmetry.
          now apply class_of_positive. }
        rewrite Hcls. apply prefix_filter, slice_prefix.
      * assert (Hnil : withScoreOf s (JS.slice (JS.sort byScoreDesc kept) 0 limit) = []).
        { assert (HF : Forall (fun p => score p > 0)
                              (JS.slice (JS.sort byScoreDesc kept) 0 limit)).
          { eapply prefix_Forall; [apply slice_prefix | apply ranked_positive]. }
          unfold withScoreOf. induction HF as [|p r Hp _ IH]; [reflexivity|].
          simpl. destruct (Z.eqb_spec (score p) s); [lia | exact IH]. }
        rewrite Hnil. eexists. reflexivity.
Qed.

Lemma findRelevantProducts_ranked_witness :
  0 <= 1
  /\ Z.of_nat (List.length
       (fst (findRelevantProducts initialState 5 "car" catalogTwoCars 1))) <= 1.
Proof.
  split; [lia|].
  apply (findRelevantProducts_ranked initialState 5 "car" catalogTwoCars 1).
  lia.
Defined.

(* ===================================================================== *)
(** ** Product matcher: empty or malformed catalog text *)
(* ===================================================================== *)

Lemma indexLines_none (lines : list string) :
  (forall line, In line lines -> JS.startsWith line productPrefix = false) ->
  indexLines lines = [].
Proof.
  induction lines as [|l r IH]; intros H; [reflexivity|].
  simpl. rewrite (H l (or_introl eq_refl)). simpl.
  apply IH. intros line Hin. apply H. now right.
Qed.

Lemma buildProductIndex_none (productData : string) :
  noProductLine productData -> buildProductIndex productData = [].
Proof.
  intros H. unfold buildProductIndex. apply indexLines_none.
  intros line Hin. apply filter_In in Hin. apply H. tauto.
Qed.

Lemma noProductLine_empty : noProductLine EmptyString.
Proof.
  intros line [<-|[]]. reflexivity.
Qed.

Lemma refreshIndex_stale st now productData :
  indexStale st now ->
  refreshIndex st now productData
  = {| productIndex := Some (buildProductIndex productData);
       indexLastUpdated := now |}.
Proof.
  unfold indexStale, refreshIndex. intros [Hn|Hold].
  - now rewrite Hn.
  - destruct (productIndex st); [|reflexivity].
    destruct (Z.gtb_spec (now - indexLastUpdated st) INDEX_CACHE_TTL);
      [reflexivity | lia].
Qed.

Lemma refreshIndex_fresh st now productData idx :
  productIndex st = Some idx ->
  now - indexLastUpdated st <= INDEX_CACHE_TTL ->
  refreshIndex st now productData = st.
Proof.
  unfold refreshIndex. intros -> Hf.
  destruct (Z.gtb_spec (now - indexLastUpdated st) INDEX_CACHE_TTL);
    [lia | reflexivity].
Qed.

(** C4, as stated, fails when the cached index is still within its TTL:
    the catalog text is then not looked at.  After a first call at time 0 on
    a two-product catalog, a call one second later with the empty catalog
    text still returns both products and leaves the two-entry index in
    place. *)
Lemma findRelevantProducts_fresh_index_ignores_catalog :
  noProductLine EmptyString
  /\ List.length (fst (findRelevantProducts warmState 1000 "car" EmptyString 3)) = 2%nat
  /\ productIndex (snd (findRelevantProducts warmState 1000 "car" EmptyString 3))
     <> Some [].
Proof.
  split; [exact noProductLine_empty|].
  split; [vm_compute; reflexivity|].
  vm_compute. discriminate.
Qed.

(** C4 (amended): for every query and limit, when the index is absent or
    older than its TTL at the time of the call, a catalog text that is empty
    or has no line starting with the product URL prefix makes the index the
    empty list, without error, and the call returns no matches.  While the
    cached index is within its TTL the catalog text is not consulted: the
    state is left as it is and the answer is the same for any catalog
    text. *)
Theorem findRelevantProducts_no_catalog :
  forall (st : IndexState) (now : Z) (query productData : string) (limit : Z),
    noProductLine productData ->
    (indexStale st now ->
     findRelevantProducts st now query productData limit
     = ([], {| productIndex := Some []; indexLastUpdated := now |}))
    /\ (forall idx,
          productIndex st = Some idx ->
          now - indexLastUpdated st <= INDEX_CACHE_TTL ->
          snd (findRelevantProducts st now query productData limit) = st
          /\ forall otherData,
               findRelevantProducts st now query productData limit
               = findRelevantProducts st now query otherData limit).
Proof.
  intros st now query productData limit Hno. split.
  - intros Hstale. rewrite findRelevantProducts_unfold.
    rewrite (refreshIndex_stale _ _ _ Hstale).
    rewrite (buildProductIndex_none _ Hno).
    destruct (extractSearchTerms (JS.toLowerCase query)); [reflexivity|].
    unfold scoredIndex. cbn [currentIndex productIndex map filter JS.sort].
    now rewrite slice_nil.
  - intros idx Hidx Hfresh. split.
    + rewrite findRelevantProducts_unfold. cbn [snd].
      now apply refreshIndex_fresh with idx.
    + intros otherData. rewrite !findRelevantProducts_unfold.
      now rewrite !(refreshIndex_fresh _ _ _ idx Hidx Hfresh).
Qed.

Lemma findRelevantProducts_no_catalog_witness :
  noProductLine EmptyString
  /\ indexStale warmState 700000
  /\ findRelevantProducts warmState 700000 "car" EmptyString 3
     = ([], {| productIndex := Some []; indexLastUpdated := 700000 |}).
Proof.
  split; [exact noProductLine_empty|].
  assert (Hs : indexStale warmState 700000).
  { right. vm_compute. reflexivity. }
  split; [exact Hs|].
  apply (findRelevantProducts_no_catalog warmState 700000 "car" EmptyString 3
           noProductLine_empty).
  exact Hs.
Defined.

(* ===================================================================== *)
(** ** Index builder: keywords of an entry *)
(* ===================================================================== *)

Lemma lowerChar_idem (c : ascii) : JS.lowerChar (JS.lowerChar c) = JS.lowerChar c.
Proof.
  destruct c as [[] [] [] [] [] [] [] []]; reflexivity.
Qed.

Lemma toLowerCase_idem (s : string) :
  JS.toLowerCase (JS.toLowerCase s) = JS.toLowerCase s.
Proof.
  unfold JS.toLowerCase. induction s as [|c r IH]; simpl.
  - reflexivity.
  - now rewrite lowerChar_idem, IH.
Qed.

Lemma productOfLine_name_lower (line : string) :
  JS.toLowerCase (name (productOfLine line)) = name (productOfLine line).
Proof.
  unfold productOfLine. cbn [name]. apply toLowerCase_idem.
Qed.

Lemma indexLines_In (e : ProductMatch) (lines : list string) :
  In e (indexLines lines) ->
  exists line, In line lines
               /\ JS.startsWith line productPrefix = true
               /\ e = productOfLine line.
Proof.
  induction lines as [|l r IH]; simpl; [tauto|].
  destruct (JS.startsWith l productPrefix) eqn:E; simpl.
  - intros [<-|Hin].
    + exists l. auto.
    + destruct (IH Hin) as (line & H1 & H2 & H3). exists line. auto.
  - intros Hin. destruct (IH Hin) as (line & H1 & H2 & H3). exists line. auto.
Qed.

Lemma buildProductIndex_In (e : ProductMatch) (productData : string) :
  In e (buildProductIndex productData) ->
  exists line, In line (JS.splitChar LF productData)
               /\ JS.startsWith line productPrefix = true
               /\ e = productOfLine line.
Proof.
  unfold buildProductIndex. intros H.
  destruct (indexLines_In _ _ H) as (line & H1 & H2 & H3).
  apply filter_In in H1. exists line. tauto.
Qed.







(* ===================================================================== *)
(** ** Keyword extractor *)
(* ===================================================================== *)

Lemma arrIncludes_In (l : list string) (x : string) :
  JS.arrIncludes l x = true <-> In x l.
Proof.
  unfold JS.arrIncludes. rewrite existsb_exists. split.
  - intros (k & Hin & Heq). apply String.eqb_eq in Heq. now subst.
  - intros Hin. exists x. split; [exact Hin | apply String.eqb_refl].
Qed.

Lemma arrIncludes_not_In (l : list string) (x : string) :
  JS.arrIncludes l x = false <-> ~ In x l.
Proof.
  rewrite <- arrIncludes_In. destruct (JS.arrIncludes l x); split; intros H;
    try discriminate; try reflexivity; try (intros H'; discriminate).
  exfalso. now apply H.
Qed.

Section DedupFacts.

Lemma dedupFrom_In (l seen : list string) (y : string) :
  In y (JS.dedupFrom seen l) <-> In y l /\ ~ In y seen.
Proof.
  revert seen. induction l as [|a r IH]; intros seen; simpl.
  - tauto.
  - destruct (JS.arrIncludes seen a) eqn:E.
    + apply arrIncludes_In in E. rewrite IH. split.
      * tauto.
      * intros [[<-|Hr] Hn]; [contradiction | tauto].
    + apply arrIncludes_not_In in E. simpl. rewrite IH. simpl. split.
      * intros [<-|(Hr & Hn)]; [tauto|]. split; [tauto|]. intros Hs.
        apply Hn. now right.
      * intros [[<-|Hr] Hn]; [tauto|].
        destruct (string_dec a y) as [<-|Hne]; [tauto|].
        right. split; [exact Hr|]. intros [Heq|Hs]; [congruence | tauto].
Qed.

Lemma dedupFrom_NoDup (l seen : list string) : NoDup (JS.dedupFrom seen l).
Proof.
  revert seen. induction l as [|a r IH]; intros seen; simpl.
  - constructor.
  - destruct (JS.arrIncludes seen a); [apply IH|].
    constructor; [|apply IH].
    rewrite dedupFrom_In. simpl. tauto.
Qed.

(** The output up to the first occurrence of [x] depends only on what
    came before that occurrence. *)
Lemma dedupFrom_first_seen (pre post seen : list string) (x : string) :
  ~ In x pre -> ~ In x seen ->
  exists post',
    JS.dedupFrom seen (pre ++ x :: post) = JS.dedupFrom seen pre ++ x :: post'.
Proof.
  revert seen. induction pre as [|a pre IH]; intros seen Hpre Hseen; simpl.
  - apply arrIncludes_not_In in Hseen. rewrite Hseen. eexists. reflexivity.
  - simpl in Hpre.
    destruct (JS.arrIncludes seen a) eqn:E.
    + apply IH; tauto.
    + destruct (IH (a :: seen)) as [post' Hp].
      * tauto.
      * simpl. tauto.
      * rewrite Hp. eexists. reflexivity.
Qed.

End DedupFacts.

(** C7: the query "car for 3 year old boy" yields kids, child, boys, car and
    vehicle (followed by year, old and boy); and for every query the
    returned list has no duplicates, holds exactly the collected terms, and
    keeps them in the order in which they were first seen: a term first
    collected right after [pre] is returned right after the distinct terms
    of [pre]. *)
Theorem extractSearchTerms_first_seen :
  extractSearchTerms "car for 3 year old boy"
  = ["kids"; "child"; "boys"; "car"; "vehicle"; "year"; "old"; "boy"]%string
  /\ incl ["kids"; "child"; "boys"; "car"; "vehicle"]%string
          (extractSearchTerms "car for 3 year old boy")
  /\ forall query : string,
       NoDup (extractSearchTerms query)
       /\ (forall x, In x (extractSearchTerms query) <-> In x (collectedTerms query))
       /\ (forall pre x,
             firstSeenAfter pre x (collectedTerms query) ->
             exists pre' post',
               extractSearchTerms query = pre' ++ x :: post'
               /\ NoDup pre'
               /\ forall y, In y pre' <-> In y pre).
Proof.
  split; [vm_compute; reflexivity|].
  split.
  { intros x Hx. vm_compute. simpl in Hx.
    repeat (destruct Hx as [<-|Hx]; [auto 10|]). contradiction. }
  intros query. unfold extractSearchTerms, JS.dedup.
  split; [apply dedupFrom_NoDup|].
  split.
  - intros x. rewrite dedupFrom_In. simpl. tauto.
  - intros pre x (Hpre & post & Hl). rewrite Hl.
    destruct (dedupFrom_first_seen pre post [] x Hpre) as [post' Hp];
      [simpl; tauto|].
    exists (JS.dedupFrom [] pre), post'. split; [exact Hp|].
    split; [apply dedupFrom_NoDup|].
    intros y. rewrite dedupFrom_In. simpl. tauto.
Qed.

Lemma extractSearchTerms_first_seen_witness :
  firstSeenAfter ["car"; "vehicle"; "car"]%string "toy" (collectedTerms "car toy")
  /\ exists pre' post',
       extractSearchTerms "car toy" = pre' ++ "toy"%string :: post'
       /\ NoDup pre'
       /\ forall y, In y pre' <-> In y ["car"; "vehicle"; "car"]%string.
Proof.
  assert (H : firstSeenAfter ["car"; "vehicle"; "car"]%string "toy"
                             (collectedTerms "car toy")).
  { split.
    - simpl. intros [E|[E|[E|[]]]]; discriminate E.
    - exists []. vm_compute. reflexivity. }
  split; [exact H|].
  destruct extractSearchTerms_first_seen as (_ & _ & Hall).
  destruct (Hall "car toy") as (_ & _ & Horder).
  exact (Horder _ _ H).
Defined.

(* ===================================================================== *)
(** ** Relevance scorer *)
(* ===================================================================== *)

(** C8: the entry named "push car rabbit car for kids" with keywords car and
    kids, scored against the terms car and kids, gets 10+3+15 for each term
    and 2 for the popular word car: 58 in all, hence at least 47.  The other
    fields of the entry play no part. *)
Theorem scorer_example :
  forall (u sl : string) (sc : Z),
    let entry := {| url := u; slug := sl; name := "push car rabbit car for kids";
                    score := sc; keywords := ["car"; "kids"]%string |} in
    termScore (productText entry) (keywords entry) "car" = 10 + 3 + 15
    /\ termScore (productText entry) (keywords entry) "kids" = 10 + 3 + 15
    /\ addPopularity (productText entry) 0 = 2
    /\ calculateRelevanceScore ["car"; "kids"]%string entry = 58
    /\ 47 <= calculateRelevanceScore ["car"; "kids"]%string entry.
Proof.
  intros u sl sc entry.
  assert (Htotal : calculateRelevanceScore ["car"; "kids"]%string entry = 58).
  { vm_compute. reflexivity. }
  repeat split; try (vm_compute; reflexivity).
  rewrite Htotal. lia.
Qed.

Lemma termScore_nonneg (text : string) (kws : list string) (term : string) :
  0 <= termScore text kws term.
Proof.
  unfold termScore.
  destruct (JS.includes text term),
           (JS.includes text (JS.substring term 0 (Z.min 4 (JS.strlen term)))),
           (JS.arrIncludes kws term); lia.
Qed.

Lemma termScores_from (text : string) (kws terms : list string) (s : Z) :
  s <= fold_left (fun score term => score + termScore text kws term) terms s.
Proof.
  revert s. induction terms as [|t r IH]; intros s; simpl.
  - lia.
  - pose proof (termScore_nonneg text kws t). pose proof (IH (s + termScore text kws t)).
    lia.
Qed.

(** The popularity loop adds the same bonus whatever score it starts from. *)
Lemma addPopularity_shift (text : string) (s : Z) :
  addPopularity text s = s + addPopularity text 0.
Proof.
  unfold addPopularity, popularProducts. simpl.
  destruct (JS.includes text "car"), (JS.includes text "bike"),
           (JS.includes text "doll"), (JS.includes text "educational"),
           (JS.includes text "stroller"), (JS.includes text "scooter"); lia.
Qed.

Lemma addPopularity_popular (text w : string) :
  In w popularProducts -> JS.includes text w = true ->
  2 <= addPopularity text 0.
Proof.
  unfold addPopularity, popularProducts. simpl.
  intros Hin Hw.
  repeat (destruct Hin as [<-|Hin];
          [rewrite Hw;
           destruct (JS.includes text "car"), (JS.includes text "bike"),
                    (JS.includes text "doll"), (JS.includes text "educational"),
                    (JS.includes text "stroller"), (JS.includes text "scooter");
           lia|]).
  contradiction.
Qed.

Lemma score_at_least_bonus (searchTerms : list string) (p : ProductMatch) :
  addPopularity (productText p) 0 <= calculateRelevanceScore searchTerms p.
Proof.
  unfold calculateRelevanceScore. cbv zeta.
  set (total := fold_left _ searchTerms 0).
  pose proof (addPopularity_shift (productText p) total) as Hshift.
  pose proof (termScores_from (productText p) (keywords p) searchTerms 0) as Hsum.
  fold total in Hsum. lia.
Qed.

(** C10: for every non-empty list of search terms, an entry whose combined
    lower-cased name-and-keywords text contains one of the popular words
    gets at least 2 from the popularity bonus alone, whatever the terms are;
    so its score is above 0, it passes the [score > 0] filter of
    [findRelevantProducts] for any query with these terms, and it is
    returned whenever [limit] does not cut the list. *)
Theorem popular_entry_retained :
  forall (searchTerms : list string) (p : ProductMatch) (w : string),
    searchTerms <> [] ->
    In w popularProducts ->
    JS.includes (productText p) w = true ->
    2 <= addPopularity (productText p) 0
    /\ addPopularity (productText p) 0 <= calculateRelevanceScore searchTerms p
    /\ forall st now query productData limit,
         extractSearchTerms (JS.toLowerCase query) = searchTerms ->
         In p (currentIndex (refreshIndex st now productData)) ->
         In (withScore searchTerms p)
            (filter (fun q => score q >? 0)
                    (scoredIndex (refreshIndex st now productData) query))
         /\ (Z.of_nat (List.length (currentIndex (refreshIndex st now productData)))
               <= limit ->
             In (withScore searchTerms p)
                (fst (findRelevantProducts st now query productData limit))).
Proof.
  intros searchTerms p w Hne Hw Hinc.
  pose proof (addPopularity_popular _ _ Hw Hinc) as Hbonus.
  pose proof (score_at_least_bonus searchTerms p) as Hscore.
  split; [exact Hbonus|]. split; [exact Hscore|].
  intros st now query productData limit Hterms Hin.
  assert (Hkept : In (withScore searchTerms p)
                     (filter (fun q => score q >? 0)
                             (scoredIndex (refreshIndex st now productData) query))).
  { apply filter_In. split.
    - unfold scoredIndex. rewrite Hterms. now apply in_map.
    - cbn [withScore score]. apply Z.gtb_lt. lia. }
  split; [exact Hkept|].
  intros Hlimit. rewrite findRelevantProducts_unfold. cbn [fst].
  rewrite Hterms. destruct searchTerms as [|t ts]; [congruence|].
  rewrite <- Hterms. rewrite slice_covers.
  - eapply Permutation_in; [apply Permutation_sym, (sort_perm score)|].
    rewrite Hterms. exact Hkept.
  - rewrite (Permutation_length (sort_perm score _)).
    etransitivity; [|exact Hlimit]. apply inj_le.
    etransitivity; [apply filter_length_le|].
    unfold scoredIndex. now rewrite length_map.
Qed.

Lemma popular_entry_retained_witness :
  (["puzzle"]%string <> [] /\ In "car"%string popularProducts
   /\ JS.includes (productText carEntry) "car" = true)
  /\ calculateRelevanceScore ["puzzle"]%string carEntry = 2
  /\ In (withScore ["puzzle"]%string carEntry)
        (fst (findRelevantProducts initialState 0 "Puzzle" catalogTwoCars 3)).
Proof.
  assert (H1 : ["puzzle"]%string <> []) by discriminate.
  assert (H2 : In "car"%string popularProducts) by (simpl; auto).
  assert (H3 : JS.includes (productText carEntry) "car" = true)
    by (vm_compute; reflexivity).
  split; [auto|]. split; [vm_compute; reflexivity|].
  destruct (popular_entry_retained ["puzzle"]%string carEntry "car" H1 H2 H3)
    as (_ & _ & Hret).
  apply (Hret initialState 0 "Puzzle"%string catalogTwoCars 3).
  - vm_compute. reflexivity.
  - vm_compute. auto.
  - vm_compute. discriminate.
Defined.

(* ===================================================================== *)
(** ** Context cache *)
(* ===================================================================== *)

Lemma getCachedContextFiles_store cache now load d :
  validEntry cache now = None ->
  load tt = Fulfilled (Some d) ->
  getCachedContextFiles cache now load
  = {| settled := Fulfilled (Some d);
       cacheAfter := Some {| data := d; lastModified := now;
                             expires := now + CACHE_TTL |};
       trace := [LogLoadingFresh; LoaderCalled; LogCachedSuccessfully] |}.
Proof.
  intros Hv Hl. unfold getCachedContextFiles. now rewrite Hv, Hl.
Qed.

Lemma getCachedContextFiles_hit c now load :
  now < expires c ->
  getCachedContextFiles (Some c) now load
  = {| settled := Fulfilled (Some (data c));
       cacheAfter := Some c;
       trace := [LogUsingCached] |}.
Proof.
  intros Hlt. unfold getCachedContextFiles, validEntry.
  destruct (Z.ltb_spec now (expires c)); [reflexivity | lia].
Qed.

Lemma validEntry_expired c now :
  expires c <= now -> validEntry (Some c) now = None.
Proof.
  intros Hle. unfold validEntry.
  destruct (Z.ltb_spec now (expires c)); [lia | reflexivity].
Qed.

(** C2: when a first call has to load and its loader succeeds with [d], a
    second call made once the TTL has run out, with a loader that returns
    null, returns [d] again and leaves the cache as the first call left it;
    and with no cached entry at all a loader that returns null makes the
    call return null. *)
Theorem stale_fallback :
  (forall cache0 t1 load1 d t2 load2,
      validEntry cache0 t1 = None ->
      load1 tt = Fulfilled (Some d) ->
      t1 + CACHE_TTL <= t2 ->
      load2 tt = Fulfilled None ->
      let first := getCachedContextFiles cache0 t1 load1 in
      let second := getCachedContextFiles (cacheAfter first) t2 load2 in
      settled first = Fulfilled (Some d)
      /\ loaderCalls (trace second) = 1%nat
      /\ settled second = Fulfilled (Some d)
      /\ cacheAfter second = cacheAfter first)
  /\ (forall now load,
        load tt = Fulfilled None ->
        settled (getCachedContextFiles None now load) = Fulfilled None
        /\ cacheAfter (getCachedContextFiles None now load) = None).
Proof.
  split.
  - intros cache0 t1 load1 d t2 load2 Hv Hl1 Hexp Hl2 first second.
    subst second first. rewrite (getCachedContextFiles_store _ _ _ _ Hv Hl1).
    cbn [settled cacheAfter]. unfold getCachedContextFiles.
    rewrite validEntry_expired by (cbn [expires]; lia).
    rewrite Hl2. cbn. auto.
  - intros now load Hl. unfold getCachedContextFiles. cbn [validEntry].
    rewrite Hl. cbn. auto.
Qed.

Lemma stale_fallback_witness :
  let first := getCachedContextFiles None 1000 (loadOk docsA) in
  let second := getCachedContextFiles (cacheAfter first) 301000 loadNull in
  settled first = Fulfilled (Some docsA)
  /\ loaderCalls (trace second) = 1%nat
  /\ settled second = Fulfilled (Some docsA)
  /\ cacheAfter second = cacheAfter first.
Proof.
  apply (proj1 stale_fallback None 1000 (loadOk docsA) docsA 301000 loadNull).
  - reflexivity.
  - reflexivity.
  - vm_compute. discriminate.
  - reflexivity.
Defined.

(** C5: when a first call has to load and stores the entry for [d], a second
    call made before that entry expires does not call its loader, whatever
    that loader is, and returns the same data as the first call. *)
Theorem cache_hit_within_ttl :
  forall cache0 t1 load1 d t2 load2,
    validEntry cache0 t1 = None ->
    load1 tt = Fulfilled (Some d) ->
    t2 < t1 + CACHE_TTL ->
    let first := getCachedContextFiles cache0 t1 load1 in
    let second := getCachedContextFiles (cacheAfter first) t2 load2 in
    loaderCalls (trace second) = 0%nat
    /\ settled second = settled first
    /\ settled second = Fulfilled (Some d)
    /\ cacheAfter second = cacheAfter first.
Proof.
  intros cache0 t1 load1 d t2 load2 Hv Hl1 Hlt first second.
  subst second first. rewrite (getCachedContextFiles_store _ _ _ _ Hv Hl1).
  cbn [settled cacheAfter].
  rewrite getCachedContextFiles_hit by (cbn [expires]; lia).
  cbn. auto.
Qed.

Lemma cache_hit_within_ttl_witness :
  let first := getCachedContextFiles (Some expiredEntry) 400000 (loadOk docsA) in
  let second := getCachedContextFiles (cacheAfter first) 699999 loadThrows in
  loaderCalls (trace second) = 0%nat
  /\ settled second = settled first
  /\ settled second = Fulfilled (Some docsA)
  /\ cacheAfter second = cacheAfter first.
Proof.
  apply (cache_hit_within_ttl (Some expiredEntry) 400000 (loadOk docsA) docsA
           699999 loadThrows).
  - reflexivity.
  - reflexivity.
  - vm_compute. reflexivity.
Defined.

(** C3, as stated, fails for a loader that throws or rejects: nothing
    catches the rejection, so the call rejects too, with an expired entry
    in the cache as well as with an empty cache, instead of returning the
    stale data or null. *)
Lemma rejecting_loader_propagates :
  settled (getCachedContextFiles (Some expiredEntry) 400000 loadThrows)
  = Rejected "storage unreachable"
  /\ settled (getCachedContextFiles (Some expiredEntry) 400000 loadThrows)
     <> Fulfilled (Some docsA)
  /\ settled (getCachedContextFiles None 400000 loadThrows)
     = Rejected "storage unreachable"
  /\ settled (getCachedContextFiles None 400000 loadThrows) <> Fulfilled None.
Proof.
  repeat split; try (vm_compute; reflexivity); vm_compute; discriminate.
Qed.

(** C3 (amended): for every loader that settles by returning, context files
    or null, the call returns without throwing, and a null result gives the
    stale cached entry if one exists, else null.  A loader that throws or
    rejects is not caught: the call rejects with the loader's error, and it
    rejects in no other case.  Whenever the loader fails, by null or by
    rejection, the cache singleton is left exactly as it was; the only
    change a call can make to it is to store a complete fresh entry after a
    successful load. *)
Theorem loader_failure_handling :
  forall (cache : option CachedContext) (now : Z) (load : Loader),
    let out := getCachedContextFiles cache now load in
    (forall r, load tt = Fulfilled r -> exists v, settled out = Fulfilled v)
    /\ (validEntry cache now = None ->
        load tt = Fulfilled None ->
        settled out = Fulfilled (option_map data cache)
        /\ cacheAfter out = cache)
    /\ (forall e,
          validEntry cache now = None ->
          load tt = Rejected e ->
          settled out = Rejected e /\ cacheAfter out = cache)
    /\ (forall e,
          settled out = Rejected e ->
          validEntry cache now = None /\ load tt = Rejected e)
    /\ (cacheAfter out = cache
        \/ exists fresh,
             load tt = Fulfilled (Some fresh)
             /\ settled out = Fulfilled (Some fresh)
             /\ cacheAfter out
                = Some {| data := fresh; lastModified := now;
                          expires := now + CACHE_TTL |}).
Proof.
  intros cache now load out. subst out. unfold getCachedContextFiles.
  destruct (validEntry cache now) as [c|] eqn:Hv.
  - cbn [settled cacheAfter]. repeat split; try discriminate; eauto.
  - destruct (load tt) as [[fresh|]|e] eqn:Hl.
    + cbn [settled cacheAfter]. repeat split; try discriminate; eauto.
    + destruct cache as [c|]; cbn [settled cacheAfter option_map];
        repeat split; try discriminate; eauto.
    + cbn [settled cacheAfter]. repeat split; try discriminate; eauto;
        try (intros e' He'; injection He' as <-; reflexivity);
        try (intros e' _ He'; injection He' as <-; reflexivity).
Qed.

Lemma loader_failure_handling_witness :
  (validEntry (Some expiredEntry) 400000 = None
   /\ loadNull tt = Fulfilled None)
  /\ settled (getCachedContextFiles (Some expiredEntry) 400000 loadNull)
     = Fulfilled (Some docsA)
  /\ cacheAfter (getCachedContextFiles (Some expiredEntry) 400000 loadNull)
     = Some expiredEntry.
Proof.
  split; [split; reflexivity|].
  apply (proj1 (proj2 (loader_failure_handling (Some expiredEntry) 400000 loadNull)));
    reflexivity.
Defined.

(* ===================================================================== *)
(** ** Conversation memory formatter *)
(* ===================================================================== *)

Lemma substring0_firstChars (n : nat) (s : string) :
  String.substring 0 n s = firstChars n s.
Proof.
  revert s. induction n as [|n IH]; intros [|c r]; simpl; try reflexivity.
  now rewrite IH.
Qed.

Lemma firstChars_all (n : nat) (s : string) :
  (String.length s <= n)%nat -> firstChars n s = s.
Proof.
  revert s. induction n as [|n IH]; intros [|c r]; simpl; intros H;
    try reflexivity; try lia.
  rewrite IH by lia. reflexivity.
Qed.

Lemma substring_first100 (msg : string) :
  JS.substring msg 0 100 = firstChars (Nat.min 100 (String.length msg)) msg.
Proof.
  unfold JS.substring, JS.clamp, JS.strlen. cbv zeta.
  match goal with
  | |- String.substring ?a ?b _ = _ =>
      replace a with 0%nat by lia;
      replace b with (Nat.min 100 (String.length msg)) by lia
  end.
  apply substring0_firstChars.
Qed.

(** The expression rendering a message in [renderChat] is the message cut
    to 100 characters, with the ellipsis exactly when it was longer. *)
Lemma renderChat_turnLine (chat : Chat) : renderChat chat = turnLine chat.
Proof.
  unfold renderChat, turnLine, truncated100. do 2 f_equal.
  rewrite substring_first100. unfold JS.strlen.
  destruct (Nat.ltb_spec 100 (String.length (message chat))) as [Hlong|Hshort].
  - destruct (Z.gtb_spec (Z.of_nat (String.length (message chat))) 100); [|lia].
    now rewrite Nat.min_l by lia.
  - destruct (Z.gtb_spec (Z.of_nat (String.length (message chat))) 100); [lia|].
    rewrite Nat.min_r by lia. rewrite firstChars_all by lia.
    clear. induction (message chat) as [|c r IH]; simpl; [reflexivity|].
    now rewrite IH.
Qed.





(* ===================================================================== *)
(** ** Strings *)
(* ===================================================================== *)

Lemma append_empty_r (s : string) : s +++ EmptyString = s.
Proof.
  induction s as [|c r IH]; simpl; [reflexivity | now rewrite IH].
Qed.

Lemma append_assoc (a b c : string) : (a +++ b) +++ c = a +++ b +++ c.
Proof.
  induction a as [|x r IH]; simpl; [reflexivity | now rewrite IH].
Qed.

Lemma length_append (a b : string) :
  String.length (a +++ b) = (String.length a + String.length b)%nat.
Proof.
  induction a as [|x r IH]; simpl; [reflexivity | now rewrite IH].
Qed.

Lemma length_firstChars (n : nat) (s : string) :
  String.length (firstChars n s) = Nat.min n (String.length s).
Proof.
  revert s. induction n as [|n IH]; intros [|c r]; simpl; try reflexivity.
  now rewrite IH.
Qed.

Lemma allChars_append (P : ascii -> bool) (a b : string) :
  allChars P (a +++ b) = (allChars P a && allChars P b)%bool.
Proof.
  induction a as [|x r IH]; simpl; [reflexivity|].
  rewrite IH. now rewrite andb_assoc.
Qed.

Lemma allChars_filterChars (P : ascii -> bool) (s : string) :
  allChars P (JS.filterChars P s) = true.
Proof.
  induction s as [|c r IH]; simpl; [reflexivity|].
  destruct (P c) eqn:E; simpl; [now rewrite E|exact IH].
Qed.

Lemma filterChars_fixed (P : ascii -> bool) (s : string) :
  allChars P s = true -> JS.filterChars P s = s.
Proof.
  induction s as [|c r IH]; simpl; [reflexivity|].
  intros H. apply andb_prop in H. destruct H as [Hc Hr].
  rewrite Hc. now rewrite IH.
Qed.

Lemma allChars_dropWhile (P f : ascii -> bool) (s : string) :
  allChars P s = true -> allChars P (JS.dropWhile f s) = true.
Proof.
  induction s as [|c r IH]; simpl; [reflexivity|].
  intros H. destruct (f c); [|exact H].
  apply andb_prop in H. now apply IH.
Qed.

Lemma allChars_trimEnd (P : ascii -> bool) (s : string) :
  allChars P s = true -> allChars P (JS.trimEnd s) = true.
Proof.
  induction s as [|c r IH]; simpl; [reflexivity|].
  intros H. apply andb_prop in H. destruct H as [Hc Hr].
  specialize (IH Hr).
  destruct (JS.trimEnd r) as [|d r'].
  - destruct (JS.isSpace c); simpl; [reflexivity | now rewrite Hc].
  - simpl in *. now rewrite Hc.
Qed.

Lemma trimEnd_idem (s : string) : JS.trimEnd (JS.trimEnd s) = JS.trimEnd s.
Proof.
  induction s as [|c r IH]; simpl; [reflexivity|].
  destruct (JS.trimEnd r) as [|d r'] eqn:E.
  - destruct (JS.isSpace c) eqn:Ec; simpl; [reflexivity | now rewrite Ec].
  - change (JS.trimEnd (String c (String d r')))
      with (match JS.trimEnd (String d r') with
            | EmptyString => if JS.isSpace c then EmptyString else String c EmptyString
            | r'' => String c r''
            end).
    now rewrite IH.
Qed.

Lemma trimEnd_keeps_head (c : ascii) (r : string) :
  JS.isSpace c = false -> exists r', JS.trimEnd (String c r) = String c r'.
Proof.
  intros Hc. simpl. destruct (JS.trimEnd r).
  - rewrite Hc. eexists. reflexivity.
  - eexists. reflexivity.
Qed.

Lemma dropWhile_head (f : ascii -> bool) (s : string) :
  match JS.dropWhile f s with
  | EmptyString => True
  | String c _ => f c = false
  end.
Proof.
  induction s as [|c r IH]; simpl; [exact I|].
  destruct (f c) eqn:E; [exact IH | exact E].
Qed.

Lemma trim_startsWithSpace (s : string) : startsWithSpace (JS.trim s) = false.
Proof.
  unfold JS.trim. pose proof (dropWhile_head JS.isSpace s) as H.
  destruct (JS.dropWhile JS.isSpace s) as [|c r]; [reflexivity|].
  destruct (trimEnd_keeps_head c r H) as [r' ->]. exact H.
Qed.

Lemma trimEnd_endsWithSpace (s : string) : endsWithSpace (JS.trimEnd s) = false.
Proof.
  induction s as [|c r IH]; simpl; [reflexivity|].
  destruct (JS.trimEnd r) as [|d r'].
  - destruct (JS.isSpace c) eqn:E; simpl; [reflexivity | exact E].
  - exact IH.
Qed.

Lemma trim_idem (s : string) : JS.trim (JS.trim s) = JS.trim s.
Proof.
  pose proof (trim_startsWithSpace s) as Hh. unfold JS.trim in *.
  destruct (JS.trimEnd (JS.dropWhile JS.isSpace s)) as [|c r] eqn:E;
    [reflexivity|].
  simpl in Hh. cbn [JS.dropWhile]. rewrite Hh.
  rewrite <- E. apply trimEnd_idem.
Qed.

(* ===================================================================== *)
(** ** Text helpers of lib/utils *)
(* ===================================================================== *)

Lemma strSlice_head (s : string) (n : Z) :
  0 <= n <= JS.strlen s -> JS.strSlice s 0 n = firstChars (Z.to_nat n) s.
Proof.
  intros Hn. unfold JS.strSlice, JS.relIndex. cbv zeta.
  change (0 <? 0) with false. cbv iota.
  destruct (Z.ltb_spec n 0) as [Hneg|_]; [lia|].
  match goal with
  | |- String.substring ?a ?b _ = _ =>
      replace a with 0%nat by lia;
      replace b with (Z.to_nat n) by lia
  end.
  apply substring0_firstChars.
Qed.

Lemma truncateText_fits (text : string) (maxLength : Z) :
  JS.strlen text <= maxLength -> truncateText text maxLength = text.
Proof.
  intros Hfit. unfold truncateText.
  destruct (Z.leb_spec (JS.strlen text) maxLength); [reflexivity | lia].
Qed.

Lemma truncateText_cut (text : string) (maxLength : Z) :
  0 <= maxLength < JS.strlen text ->
  truncateText text maxLength = firstChars (Z.to_nat maxLength) text +++ "...".
Proof.
  intros Hcut. unfold truncateText.
  destruct (Z.leb_spec (JS.strlen text) maxLength); [lia|].
  now rewrite strSlice_head by lia.
Qed.

(** X1: for a non-negative [maxLength], [truncateText] returns the text
    itself when it fits, and otherwise its first [maxLength] characters
    followed by "..."; the result is never longer than [maxLength + 3]. *)
Theorem truncateText_bounded :
  forall (text : string) (maxLength : Z),
    0 <= maxLength ->
    JS.strlen (truncateText text maxLength) <= maxLength + 3
    /\ (JS.strlen text <= maxLength -> truncateText text maxLength = text)
    /\ (maxLength < JS.strlen text ->
        truncateText text maxLength
        = firstChars (Z.to_nat maxLength) text +++ "...").
Proof.
  intros text maxLength Hm.
  split; [|split; [apply truncateText_fits | intros; apply truncateText_cut; lia]].
  destruct (Z.le_gt_cases (JS.strlen text) maxLength) as [Hfit|Hlong].
  - rewrite truncateText_fits by exact Hfit. lia.
  - rewrite truncateText_cut by lia.
    unfold JS.strlen in *. rewrite length_append, length_firstChars.
    simpl String.length. lia.
Qed.

Lemma truncateText_bounded_witness :
  0 <= 4
  /\ JS.strlen (truncateText "push car rabbit" 4) <= 4 + 3
  /\ truncateText "push car rabbit" 4 = "push...".
Proof.
  split; [lia|].
  destruct (truncateText_bounded "push car rabbit" 4) as (Hlen & _ & Hcut);
    [lia|].
  split; [exact Hlen|]. apply Hcut. vm_compute. reflexivity.
Defined.

(** X2: the cut that [formatChatHistoryForAI] applies to each message is
    [truncateText] with a limit of 100. *)
Theorem renderChat_uses_truncateText :
  forall chat : Chat,
    renderChat chat
    = roleText (role chat) +++ ": " +++ truncateText (message chat) 100.
Proof.
  intros chat. rewrite renderChat_turnLine. unfold turnLine, truncated100.
  do 2 f_equal.
  destruct (Nat.ltb_spec 100 (String.length (message chat))) as [Hlong|Hshort].
  - rewrite truncateText_cut by (unfold JS.strlen; lia). reflexivity.
  - rewrite truncateText_fits by (unfold JS.strlen; lia). reflexivity.
Qed.

(** X3: whatever the input, the result of [sanitizeInput] holds neither "<"
    nor ">", neither starts nor ends with whitespace, and is left unchanged
    by a second pass. *)
Theorem sanitizeInput_clean :
  forall input : string,
    allChars notAngle (sanitizeInput input) = true
    /\ startsWithSpace (sanitizeInput input) = false
    /\ endsWithSpace (sanitizeInput input) = false
    /\ sanitizeInput (sanitizeInput input) = sanitizeInput input.
Proof.
  intros input. unfold sanitizeInput.
  assert (Hclean : allChars notAngle (JS.trim (JS.filterChars notAngle input)) = true).
  { unfold JS.trim. apply allChars_trimEnd, allChars_dropWhile,
      allChars_filterChars. }
  split; [exact Hclean|].
  split; [apply trim_startsWithSpace|].
  split; [unfold JS.trim; apply trimEnd_endsWithSpace|].
  rewrite (filterChars_fixed _ _ Hclean). apply trim_idem.
Qed.

Section EmailPattern.

Lemma plusThen_spec (cls : ascii -> bool) (k : string -> bool) (s : string) :
  JS.plusThen cls k s = true
  <-> exists a r, s = a +++ r /\ a <> EmptyString
                  /\ allChars cls a = true /\ k r = true.
Proof.
  induction s as [|c s IH]; simpl.
  - split; [discriminate|].
    intros (a & r & Hs & Ha & _). destruct a; [congruence | discriminate].
  - split.
    + intros H. apply andb_prop in H. destruct H as [Hc H].
      apply orb_prop in H. destruct H as [Hk|Hp].
      * exists (String c EmptyString), s. simpl. rewrite Hc.
        repeat split; [discriminate | exact Hk].
      * apply IH in Hp. destruct Hp as (a & r & -> & _ & Ha & Hk).
        exists (String c a), r. simpl. rewrite Hc, Ha.
        repeat split; [discriminate | exact Hk].
    + intros (a & r & Hs & Hne & Ha & Hk).
      destruct a as [|d a]; [congruence|]. simpl in Hs, Ha.
      injection Hs as -> ->. apply andb_prop in Ha. destruct Ha as [Hd Ha].
      rewrite Hd. simpl. destruct a as [|e a].
      * simpl. now rewrite Hk.
      * apply orb_true_iff. right. apply IH. exists (String e a), r.
        repeat split; [discriminate | exact Ha | exact Hk].
Qed.

Lemma litThen_spec (c : ascii) (k : string -> bool) (s : string) :
  JS.litThen c k s = true <-> exists r, s = String c r /\ k r = true.
Proof.
  destruct s as [|d s]; simpl.
  - split; [discriminate | intros (r & H & _); discriminate].
  - split.
    + intros H. apply andb_prop in H. destruct H as [Hd Hk].
      apply Ascii.eqb_eq in Hd. subst. eauto.
    + intros (r & Hs & Hk). injection Hs as -> ->.
      now rewrite Ascii.eqb_refl, Hk.
Qed.

Lemma countChar_append (c : ascii) (a b : string) :
  countChar c (a +++ b) = (countChar c a + countChar c b)%nat.
Proof.
  induction a as [|x r IH]; simpl; [reflexivity|].
  destruct (Ascii.eqb x c); simpl; now rewrite IH.
Qed.

Lemma emailChar_no_at (a : string) :
  allChars emailChar a = true -> countChar "@" a = 0%nat.
Proof.
  induction a as [|x r IH]; simpl; [reflexivity|].
  intros H. apply andb_prop in H. destruct H as [Hx Hr].
  unfold emailChar in Hx. apply negb_true_iff, orb_false_iff in Hx.
  destruct Hx as [_ Hx]. rewrite Hx. now apply IH.
Qed.

Lemma emailChar_no_space (a : string) :
  allChars emailChar a = true -> allChars (fun c => negb (JS.isSpace c)) a = true.
Proof.
  induction a as [|x r IH]; simpl; [reflexivity|].
  intros H. apply andb_prop in H. destruct H as [Hx Hr].
  unfold emailChar in Hx. apply negb_true_iff, orb_false_iff in Hx.
  destruct Hx as [Hx _]. rewrite Hx. simpl. now apply IH.
Qed.

End EmailPattern.

(** X4: [isValidEmail] accepts exactly the strings of the form
    [local@domain.tail] whose three parts are non-empty and free of
    whitespace and of "@"; so an accepted address has exactly one "@" and no
    whitespace at all. *)
Theorem isValidEmail_shape :
  forall email : string,
    (isValidEmail email = true
     <-> exists a b c,
           email = a +++ "@" +++ b +++ "." +++ c
           /\ a <> EmptyString /\ b <> EmptyString /\ c <> EmptyString
           /\ allChars emailChar a = true
           /\ allChars emailChar b = true
           /\ allChars emailChar c = true)
    /\ (isValidEmail email = true ->
        countChar "@" email = 1%nat
        /\ allChars (fun ch => negb (JS.isSpace ch)) email = true).
Proof.
  intros email.
  assert (Hiff : isValidEmail email = true
     <-> exists a b c,
           email = a +++ "@" +++ b +++ "." +++ c
           /\ a <> EmptyString /\ b <> EmptyString /\ c <> EmptyString
           /\ allChars emailChar a = true
           /\ allChars emailChar b = true
           /\ allChars emailChar c = true).
  { unfold isValidEmail. rewrite plusThen_spec. split.
    - intros (a & r1 & -> & Ha & Hca & H1).
      apply litThen_spec in H1. destruct H1 as (r2 & -> & H2).
      apply plusThen_spec in H2. destruct H2 as (b & r3 & -> & Hb & Hcb & H3).
      apply litThen_spec in H3. destruct H3 as (r4 & -> & H4).
      apply plusThen_spec in H4. destruct H4 as (c & r5 & -> & Hc & Hcc & H5).
      destruct r5; [|discriminate]. rewrite append_empty_r.
      exists a, b, c. auto 10.
    - intros (a & b & c & -> & Ha & Hb & Hc & Hca & Hcb & Hcc).
      exists a, ("@" +++ b +++ "." +++ c). repeat split; auto.
      apply litThen_spec. exists (b +++ "." +++ c). split; [reflexivity|].
      apply plusThen_spec. exists b, ("." +++ c). repeat split; auto.
      apply litThen_spec. exists c. split; [reflexivity|].
      apply plusThen_spec. exists c, EmptyString. rewrite append_empty_r.
      repeat split; auto. }
  split; [exact Hiff|].
  intros Hv. apply Hiff in Hv.
  destruct Hv as (a & b & c & -> & _ & _ & _ & Hca & Hcb & Hcc). split.
  - rewrite !countChar_append. simpl.
    rewrite (emailChar_no_at _ Hca), (emailChar_no_at _ Hcb),
      (emailChar_no_at _ Hcc). reflexivity.
  - rewrite !allChars_append. simpl.
    rewrite (emailChar_no_space _ Hca), (emailChar_no_space _ Hcb),
      (emailChar_no_space _ Hcc). reflexivity.
Qed.

Lemma isValidEmail_shape_witness :
  isValidEmail "asha@thegurtoys.com" = true
  /\ countChar "@" "asha@thegurtoys.com" = 1%nat
  /\ allChars (fun ch => negb (JS.isSpace ch)) "asha@thegurtoys.com" = true.
Proof.
  assert (H : isValidEmail "asha@thegurtoys.com" = true) by reflexivity.
  split; [exact H|].
  exact (proj2 (isValidEmail_shape "asha@thegurtoys.com") H).
Defined.

(* ===================================================================== *)
(** ** Index builder: shape of the index *)
(* ===================================================================== *)

Lemma indexLines_map (lines : list string) :
  indexLines lines
  = map productOfLine (filter (fun l => JS.startsWith l productPrefix) lines).
Proof.
  induction lines as [|l r IH]; [reflexivity|].
  simpl. destruct (JS.startsWith l productPrefix); simpl; now rewrite IH.
Qed.

Lemma product_line_not_blank (line : string) :
  JS.startsWith line productPrefix = true -> JS.truthy (JS.trim line) = true.
Proof.
  destruct line as [|c r]; [discriminate|].
  unfold JS.startsWith, productPrefix. intros H.
  assert (Hc : c = "h"%char).
  { cbn [String.prefix] in H. destruct (ascii_dec "h" c); [congruence | discriminate]. }
  subst c. clear H.
  unfold JS.trim. cbn [JS.dropWhile].
  change (JS.isSpace "h") with false. cbv iota.
  destruct (trimEnd_keeps_head "h" r eq_refl) as [r' ->]. reflexivity.
Qed.

Lemma filter_filter_implied {A : Type} (f g : A -> bool) (l : list A) :
  (forall x, f x = true -> g x = true) ->
  filter f (filter g l) = filter f l.
Proof.
  intros H. induction l as [|x r IH]; [reflexivity|].
  simpl. destruct (g x) eqn:Eg; simpl.
  - now rewrite IH.
  - destruct (f x) eqn:Ef; [|exact IH].
    rewrite (H x Ef) in Eg. discriminate.
Qed.

Lemma buildProductIndex_map (productData : string) :
  buildProductIndex productData
  = map productOfLine
        (filter (fun l => JS.startsWith l productPrefix)
                (JS.splitChar LF productData)).
Proof.
  unfold buildProductIndex. rewrite indexLines_map. f_equal.
  apply filter_filter_implied. intros l. apply product_line_not_blank.
Qed.

(** X5: the index holds one entry for each line of the catalog text that
    starts with the product URL prefix, in the order of the text and with
    repeated lines repeated; the entry's [url] is the line as it stands and
    its [score] is 0. *)
Theorem buildProductIndex_catalog_order :
  forall productData : string,
    map url (buildProductIndex productData)
    = filter (fun l => JS.startsWith l productPrefix)
             (JS.splitChar LF productData)
    /\ Forall (fun e => score e = 0) (buildProductIndex productData).
Proof.
  intros productData. rewrite buildProductIndex_map. split.
  - rewrite map_map. cbn [productOfLine url]. apply map_id.
  - apply Forall_forall. intros e He. apply in_map_iff in He.
    destruct He as (l & <- & _). reflexivity.
Qed.

Lemma splitChar_pieces_clean (sep : ascii) (s piece : string) :
  In piece (JS.splitChar sep s) -> countChar sep piece = 0%nat.
Proof.
  revert piece. induction s as [|c r IH]; intros piece; simpl.
  - intros [<-|[]]. reflexivity.
  - destruct (Ascii.eqb c sep) eqn:E.
    + intros [<-|H]; [reflexivity | now apply IH].
    + destruct (JS.splitChar sep r) as [|w ws] eqn:Er; simpl.
      * intros [<-|[]]. simpl. now rewrite E.
      * intros [<-|H].
        -- simpl. rewrite E. apply IH. now left.
        -- apply IH. now right.
Qed.

Lemma splitChar_nonempty (sep : ascii) (s : string) : JS.splitChar sep s <> [].
Proof.
  destruct s as [|c r]; simpl; [discriminate|].
  destruct (Ascii.eqb c sep); [discriminate|].
  destruct (JS.splitChar sep r); discriminate.
Qed.

(** Joining the pieces of a split with the separator gives the text back. *)
Lemma join_splitChar (sep : ascii) (s : string) :
  JS.join (String sep EmptyString) (JS.splitChar sep s) = s.
Proof.
  induction s as [|c r IH]; [reflexivity|].
  pose proof (splitChar_nonempty sep r) as Hne.
  simpl JS.splitChar. destruct (Ascii.eqb_spec c sep) as [->|Hc].
  - destruct (JS.splitChar sep r) as [|w ws]; [congruence|].
    change (JS.join (String sep EmptyString) (EmptyString :: w :: ws))
      with (String sep (JS.join (String sep EmptyString) (w :: ws))).
    now rewrite IH.
  - destruct (JS.splitChar sep r) as [|w ws]; [congruence|].
    rewrite <- IH. destruct ws; reflexivity.
Qed.

Lemma join_last_suffix (sep : string) (l : list string) :
  exists pre, JS.join sep l = pre +++ last l EmptyString.
Proof.
  induction l as [|x r IH].
  - exists EmptyString. reflexivity.
  - destruct r as [|y r'].
    + exists EmptyString. reflexivity.
    + destruct IH as [pre Hpre]. exists (x +++ sep +++ pre).
      change (JS.join sep (x :: y :: r')) with (x +++ sep +++ JS.join sep (y :: r')).
      change (last (x :: y :: r') EmptyString) with (last (y :: r') EmptyString).
      rewrite Hpre. now rewrite !append_assoc.
Qed.

(** The text ends with the last piece of its split. *)
Lemma splitChar_last_suffix (sep : ascii) (s : string) :
  exists pre, s = pre +++ last (JS.splitChar sep s) EmptyString.
Proof.
  destruct (join_last_suffix (String sep EmptyString) (JS.splitChar sep s))
    as [pre Hpre].
  exists pre. now rewrite <- Hpre, join_splitChar.
Qed.

Lemma lowerChar_isLower (c : ascii) : isLower (JS.lowerChar c) = true.
Proof.
  unfold isLower. rewrite lowerChar_idem. apply Ascii.eqb_refl.
Qed.

Lemma toLowerCase_isLower (s : string) : allChars isLower (JS.toLowerCase s) = true.
Proof.
  induction s as [|c r IH]; simpl; [reflexivity|].
  now rewrite lowerChar_isLower.
Qed.

Lemma isLower_fixed (s : string) :
  allChars isLower s = true -> JS.toLowerCase s = s.
Proof.
  induction s as [|c r IH]; simpl; [reflexivity|].
  intros H. apply andb_prop in H. destruct H as [Hc Hr].
  apply Ascii.eqb_eq in Hc. unfold JS.toLowerCase in *. simpl.
  now rewrite Hc, IH.
Qed.

Lemma lowerChar_hyphen (c : ascii) :
  Ascii.eqb c "-" = false -> Ascii.eqb (JS.lowerChar c) "-" = false.
Proof.
  destruct c as [[] [] [] [] [] [] [] []]; intros H; try reflexivity;
    discriminate H.
Qed.

Lemma toLowerCase_no_hyphen (s : string) :
  countChar "-" s = 0%nat -> countChar "-" (JS.toLowerCase s) = 0%nat.
Proof.
  induction s as [|c r IH]; simpl; [reflexivity|].
  destruct (Ascii.eqb c "-") eqn:E; [discriminate|].
  intros H. rewrite (lowerChar_hyphen _ E). now apply IH.
Qed.

Lemma replaceChar_no_hyphen (s : string) :
  countChar "-" (JS.replaceChar "-" " " s) = 0%nat.
Proof.
  unfold JS.replaceChar. induction s as [|c r IH]; simpl; [reflexivity|].
  destruct (Ascii.eqb c "-") eqn:E; simpl; [exact IH|].
  now rewrite E.
Qed.

(** The pieces of a whitespace split hold code units of the text only, and
    no whitespace. *)
Lemma splitWsFrom_pieces (P : ascii -> bool) (inSep : bool) (s piece : string) :
  allChars P s = true ->
  In piece (JS.splitWsFrom inSep s) ->
  allChars P piece = true /\ allChars notSpace piece = true.
Proof.
  revert inSep piece. induction s as [|c r IH]; intros inSep piece Hs; simpl.
  - intros [<-|[]]. auto.
  - simpl in Hs. apply andb_prop in Hs. destruct Hs as [Hc Hr].
    destruct (JS.isSpace c) eqn:E.
    + destruct inSep.
      * now apply IH.
      * intros [<-|H]; [auto | now apply (IH true)].
    + destruct (JS.splitWsFrom false r) as [|w ws] eqn:Er; simpl.
      * intros [<-|[]]. simpl. unfold notSpace. now rewrite Hc, E.
      * intros [<-|H].
        -- destruct (IH false w Hr) as [H1 H2]; [rewrite Er; now left|].
           simpl. unfold notSpace at 1. now rewrite Hc, E, H1, H2.
        -- apply (IH false); [exact Hr | rewrite Er; now right].
Qed.

Lemma last_In {A : Type} (l : list A) (d : A) : l <> [] -> In (last l d) l.
Proof.
  induction l as [|x r IH]; [congruence|]. intros _.
  destruct r as [|y r']; [now left|].
  right. apply IH. discriminate.
Qed.

Lemma join_last_after_sep (sep : string) (l : list string) :
  (List.length l <= 1)%nat
  \/ exists pre, JS.join sep l = pre +++ sep +++ last l EmptyString.
Proof.
  induction l as [|x r IH]; [left; simpl; lia|].
  destruct r as [|y r']; [left; simpl; lia|]. right.
  change (JS.join sep (x :: y :: r')) with (x +++ sep +++ JS.join sep (y :: r')).
  change (last (x :: y :: r') EmptyString) with (last (y :: r') EmptyString).
  destruct IH as [Hshort|[pre Hpre]].
  - destruct r' as [|z r'']; [|simpl in Hshort; lia].
    exists x. reflexivity.
  - exists (x +++ sep +++ pre). rewrite Hpre. now rewrite !append_assoc.
Qed.

Lemma startsWith_split (s p : string) :
  JS.startsWith s p = true -> exists rest, s = p +++ rest.
Proof.
  unfold JS.startsWith. revert s. induction p as [|c p IH]; intros s H.
  - exists s. reflexivity.
  - destruct s as [|d s]; [discriminate|]. cbn [String.prefix] in H.
    destruct (ascii_dec c d) as [<-|]; [|discriminate].
    destruct (IH s H) as [rest ->]. exists rest. reflexivity.
Qed.

(** A line under the product prefix ends with a "/" followed by the last
    piece of its split at "/". *)
Lemma product_line_slug (line : string) :
  JS.startsWith line productPrefix = true ->
  exists pre,
    line = pre +++ "/" +++ last (JS.splitChar "/" line) EmptyString.
Proof.
  intros Hpre.
  destruct (join_last_after_sep "/" (JS.splitChar "/" line)) as [Hshort|[pre Hj]].
  - exfalso.
    pose proof (splitChar_nonempty "/" line) as Hne.
    pose proof (join_splitChar "/" line) as Hjoin.
    pose proof (splitChar_pieces_clean "/" line) as Hclean.
    destruct (JS.splitChar "/" line) as [|x r]; [congruence|].
    destruct r as [|y r']; [|simpl in Hshort; lia].
    simpl in Hjoin. subst x.
    specialize (Hclean line (or_introl eq_refl)).
    destruct (startsWith_split _ _ Hpre) as [rest Hrest].
    rewrite Hrest, countChar_append in Hclean.
    unfold productPrefix in Hclean. simpl in Hclean. discriminate Hclean.
  - exists pre. rewrite <- Hj. symmetry. apply (join_splitChar "/" line).
Qed.

Lemma extractKeywords_In (nm k : string) :
  In k (extractKeywords nm) ->
  In k (JS.splitWs (JS.toLowerCase nm)) /\ 2 < JS.strlen k.
Proof.
  unfold extractKeywords. intros H. apply filter_In in H.
  destruct H as [Hin Hf]. apply andb_prop in Hf. destruct Hf as [Hlen _].
  split; [exact Hin | lia].
Qed.

(** X6: every entry of the index is derived from its catalog line: the
    [url] is a line of the catalog text under the product prefix; the [slug]
    is the part of the line after its last "/" (the line is some text, a
    "/", and the slug, and the slug holds no "/"); the [name] is in lower
    case and has no hyphen; and every keyword is a word of the name, longer
    than two characters, in lower case and free of whitespace. *)
Theorem index_entries_well_formed :
  forall (productData : string) (e : ProductMatch),
    In e (buildProductIndex productData) ->
    In (url e) (JS.splitChar LF productData)
    /\ JS.startsWith (url e) productPrefix = true
    /\ (exists pre, url e = pre +++ "/" +++ slug e)
    /\ countChar "/" (slug e) = 0%nat
    /\ JS.toLowerCase (name e) = name e
    /\ countChar "-" (name e) = 0%nat
    /\ Forall (fun k => In k (JS.splitWs (name e))
                        /\ 2 < JS.strlen k
                        /\ JS.toLowerCase k = k
                        /\ allChars notSpace k = true)
              (keywords e).
Proof.
  intros productData e Hin.
  destruct (buildProductIndex_In _ _ Hin) as (line & Hline & Hpre & ->).
  cbn [url slug].
  split; [exact Hline|]. split; [exact Hpre|].
  split; [now apply product_line_slug|].
  split.
  { apply (splitChar_pieces_clean "/" line).
    apply last_In, splitChar_nonempty. }
  split; [apply productOfLine_name_lower|].
  split.
  { unfold productOfLine. cbn [name].
    apply toLowerCase_no_hyphen, replaceChar_no_hyphen. }
  apply Forall_forall. intros k Hk.
  change (keywords (productOfLine line))
    with (extractKeywords (name (productOfLine line))) in Hk.
  apply extractKeywords_In in Hk. rewrite productOfLine_name_lower in Hk.
  destruct Hk as [Hk Hlen].
  assert (Hlow : allChars isLower (name (productOfLine line)) = true).
  { unfold productOfLine. cbn [name]. apply toLowerCase_isLower. }
  destruct (splitWsFrom_pieces isLower false _ k Hlow Hk) as [H1 H2].
  repeat split; auto. now apply isLower_fixed.
Qed.

Lemma index_entries_well_formed_witness :
  In (productOfLine goKartLine) (buildProductIndex goKartLine)
  /\ slug (productOfLine goKartLine) = "gurtoy-go-kart"
  /\ (exists pre,
        url (productOfLine goKartLine)
        = pre +++ "/" +++ slug (productOfLine goKartLine))
  /\ countChar "/" (slug (productOfLine goKartLine)) = 0%nat.
Proof.
  assert (Hin : In (productOfLine goKartLine) (buildProductIndex goKartLine)).
  { vm_compute. auto. }
  split; [exact Hin|]. split; [vm_compute; reflexivity|].
  destruct (index_entries_well_formed goKartLine (productOfLine goKartLine) Hin)
    as (_ & _ & Hslug & Hclean & _).
  split; [exact Hslug | exact Hclean].
Defined.

(* ===================================================================== *)
(** ** Keyword extractor: what a search term is *)
(* ===================================================================== *)

Lemma categoryTerms_fixed (query t : string) :
  In t (categoryTerms query) -> In t (flat_map snd categoryTable).
Proof.
  unfold categoryTerms. intros H. apply in_flat_map in H.
  destruct H as (entry & Hentry & Ht). apply in_flat_map.
  exists entry. split; [exact Hentry|].
  destruct (JS.testAlts (fst entry) query); [exact Ht | contradiction].
Qed.

Lemma collectedTerms_sources (query t : string) :
  In t (collectedTerms query) ->
  In t fixedTerms \/ In t (meaningfulWords query).
Proof.
  unfold collectedTerms, fixedTerms. rewrite !in_app_iff.
  intros [Hage|[Hgender|[Hcat|Hword]]].
  - left. left. unfold ageTerms in Hage.
    destruct (JS.ageMatch ageUnits query) as [[digits unit]|]; [|contradiction].
    destruct (JS.parseInt digits <=? 2); [|destruct (JS.parseInt digits <=? 5)];
      simpl in *; tauto.
  - left. left. unfold genderTerms in Hgender. apply in_app_iff in Hgender.
    destruct (JS.testWords _ query), (JS.testWords _ query) in Hgender;
      simpl in *; tauto.
  - left. right. now apply categoryTerms_fixed with query.
  - now right.
Qed.

Lemma fixedTerms_sound : forallb soundTerm fixedTerms = true.
Proof. vm_compute. reflexivity. Qed.

Lemma wordOrSpace_word (c : ascii) :
  (JS.isWordChar c || JS.isSpace c)%bool = true -> notSpace c = true ->
  JS.isWordChar c = true.
Proof.
  unfold notSpace. destruct (JS.isWordChar c), (JS.isSpace c); simpl; congruence.
Qed.

Lemma allChars_both (P Q R : ascii -> bool) (s : string) :
  (forall c, P c = true -> Q c = true -> R c = true) ->
  allChars P s = true -> allChars Q s = true -> allChars R s = true.
Proof.
  intros H. induction s as [|c r IH]; simpl; [reflexivity|].
  intros HP HQ. apply andb_prop in HP. apply andb_prop in HQ.
  destruct HP as [HPc HPr], HQ as [HQc HQr].
  now rewrite (H c HPc HQc), IH.
Qed.

Lemma meaningfulWords_sound (query t : string) :
  In t (meaningfulWords query) -> soundTerm t = true.
Proof.
  unfold meaningfulWords. intros H. apply filter_In in H.
  destruct H as [Hin Hf]. apply andb_prop in Hf. destruct Hf as [Hlen Hstop].
  destruct (splitWsFrom_pieces (fun c => (JS.isWordChar c || JS.isSpace c)%bool)
              false _ t (allChars_filterChars _ query) Hin) as [H1 H2].
  unfold soundTerm. rewrite Hstop.
  rewrite (allChars_both _ _ _ t wordOrSpace_word H1 H2).
  rewrite andb_true_r, andb_true_r. apply Z.leb_le. apply Z.geb_le in Hlen. lia.
Qed.

(** X7: every search term that [extractSearchTerms] returns, for any query,
    has at least three characters, consists of word characters only, and is
    not one of the stop words. *)
Theorem extractSearchTerms_sound :
  forall (query t : string),
    In t (extractSearchTerms query) ->
    3 <= JS.strlen t
    /\ allChars JS.isWordChar t = true
    /\ JS.testWhole stopWords t = false.
Proof.
  intros query t Hin. unfold extractSearchTerms, JS.dedup in Hin.
  apply dedupFrom_In in Hin. destruct Hin as [Hin _].
  assert (Hs : soundTerm t = true).
  { destruct (collectedTerms_sources _ _ Hin) as [Hfix|Hword].
    - pose proof fixedTerms_sound as Hall.
      rewrite forallb_forall in Hall. now apply Hall.
    - now apply meaningfulWords_sound with query. }
  unfold soundTerm in Hs. apply andb_prop in Hs. destruct Hs as [Hs Hw].
  apply andb_prop in Hs. destruct Hs as [Hlen Hstop].
  apply negb_true_iff in Hstop. apply Z.leb_le in Hlen. auto.
Qed.

Lemma extractSearchTerms_sound_witness :
  In "old"%string (extractSearchTerms "car for 3 year old boy")
  /\ 3 <= JS.strlen "old"
  /\ allChars JS.isWordChar "old" = true
  /\ JS.testWhole stopWords "old" = false.
Proof.
  assert (Hin : In "old"%string (extractSearchTerms "car for 3 year old boy")).
  { vm_compute. auto 10. }
  split; [exact Hin|].
  exact (extractSearchTerms_sound "car for 3 year old boy" "old" Hin).
Defined.

(* ===================================================================== *)
(** ** Relevance scorer: bounds and tiers *)
(* ===================================================================== *)

Lemma termScore_le (text : string) (kws : list string) (term : string) :
  termScore text kws term <= 28.
Proof.
  unfold termScore.
  destruct (JS.includes text term),
           (JS.includes text (JS.substring term 0 (Z.min 4 (JS.strlen term)))),
           (JS.arrIncludes kws term); lia.
Qed.

Lemma termScores_upto (text : string) (kws terms : list string) (s : Z) :
  fold_left (fun score term => score + termScore text kws term) terms s
  <= s + 28 * Z.of_nat (List.length terms).
Proof.
  revert s. induction terms as [|t r IH]; intros s.
  - simpl. lia.
  - cbn [fold_left List.length].
    pose proof (termScore_le text kws t) as Ht.
    pose proof (IH (s + termScore text kws t)) as Hr. lia.
Qed.

Lemma addPopularity_range (text : string) : 0 <= addPopularity text 0 <= 12.
Proof.
  unfold addPopularity, popularProducts. simpl.
  destruct (JS.includes text "car"), (JS.includes text "bike"),
           (JS.includes text "doll"), (JS.includes text "educational"),
           (JS.includes text "stroller"), (JS.includes text "scooter"); lia.
Qed.

(** X8: a relevance score is never negative and never above 28 per search
    term plus 12, the most the six popular words can add; and the part that
    does not depend on the terms lies between 0 and 12. *)
Theorem calculateRelevanceScore_bounds :
  forall (searchTerms : list string) (p : ProductMatch),
    0 <= addPopularity (productText p) 0 <= 12
    /\ addPopularity (productText p) 0 <= calculateRelevanceScore searchTerms p
    /\ calculateRelevanceScore searchTerms p
       <= 28 * Z.of_nat (List.length searchTerms) + 12.
Proof.
  intros searchTerms p.
  pose proof (addPopularity_range (productText p)) as Hb.
  split; [exact Hb|]. split; [apply score_at_least_bonus|].
  unfold calculateRelevanceScore. cbv zeta.
  set (total := fold_left _ searchTerms 0).
  pose proof (addPopularity_shift (productText p) total) as Hshift.
  pose proof (termScores_upto (productText p) (keywords p) searchTerms 0) as Hsum.
  fold total in Hsum. lia.
Qed.

Lemma substring_head (s : string) (k : Z) :
  JS.substring s 0 k = firstChars (Z.to_nat (JS.clamp (JS.strlen s) k)) s.
Proof.
  unfold JS.substring, JS.clamp, JS.strlen. cbv zeta.
  match goal with
  | |- String.substring ?a ?b _ = firstChars ?n _ =>
      replace a with 0%nat by lia;
      replace b with n by lia
  end.
  apply substring0_firstChars.
Qed.

Lemma prefix_empty (s : string) : String.prefix EmptyString s = true.
Proof. destruct s; reflexivity. Qed.

Lemma prefix_firstChars (n : nat) (t s : string) :
  String.prefix t s = true -> String.prefix (firstChars n t) s = true.
Proof.
  revert t s. induction n as [|n IH]; intros t s H.
  - destruct t; apply prefix_empty.
  - destruct t as [|c t]; [apply prefix_empty|].
    destruct s as [|d s]; [discriminate|].
    cbn [firstChars String.prefix] in *.
    destruct (ascii_dec c d); [now apply IH | discriminate].
Qed.

Lemma includes_firstChars (n : nat) (text t : string) :
  JS.includes text t = true -> JS.includes text (firstChars n t) = true.
Proof.
  induction text as [|c r IH]; cbn [JS.includes]; unfold JS.startsWith.
  - rewrite !orb_false_r. apply prefix_firstChars.
  - intros H. apply orb_prop in H. destruct H as [H|H].
    + now rewrite (prefix_firstChars n _ _ H).
    + rewrite (IH H). apply orb_true_r.
Qed.

(** X9: a term found in the product text brings its first characters with
    it, so the +10 of an exact match never comes without the +3 of the
    partial match; and where the partial match fails, only the keyword bonus
    can be left. *)
Theorem exact_match_implies_partial :
  forall (text : string) (kws : list string) (term : string),
    (JS.includes text term = true ->
     JS.includes text (JS.substring term 0 (Z.min 4 (JS.strlen term))) = true
     /\ 13 <= termScore text kws term)
    /\ (JS.includes text (JS.substring term 0 (Z.min 4 (JS.strlen term))) = false ->
        termScore text kws term = if JS.arrIncludes kws term then 15 else 0).
Proof.
  intros text kws term. split.
  - intros Hinc.
    assert (Hpart : JS.includes text
                      (JS.substring term 0 (Z.min 4 (JS.strlen term))) = true).
    { rewrite substring_head. now apply includes_firstChars. }
    split; [exact Hpart|]. unfold termScore. rewrite Hinc, Hpart.
    destruct (JS.arrIncludes kws term); lia.
  - intros Hpart. unfold termScore. rewrite Hpart.
    destruct (JS.includes text term) eqn:Hinc.
    + rewrite substring_head in Hpart.
      rewrite (includes_firstChars _ _ _ Hinc) in Hpart. discriminate.
    + destruct (JS.arrIncludes kws term); reflexivity.
Qed.

Lemma exact_match_implies_partial_witness :
  JS.includes "push car rabbit" "rabbit" = true
  /\ 13 <= termScore "push car rabbit" [] "rabbit".
Proof.
  assert (H : JS.includes "push car rabbit" "rabbit" = true) by reflexivity.
  split; [exact H|].
  exact (proj2 (proj1 (exact_match_implies_partial "push car rabbit" [] "rabbit") H)).
Defined.

Lemma prefix_append_same (a b : string) : String.prefix a (a +++ b) = true.
Proof.
  induction a as [|c a IH]; [apply prefix_empty|].
  cbn [String.append String.prefix].
  destruct (ascii_dec c c); [exact IH | congruence].
Qed.

Lemma prefix_append_l (t a b : string) :
  String.prefix t a = true -> String.prefix t (a +++ b) = true.
Proof.
  revert a. induction t as [|c t IH]; intros a H; [apply prefix_empty|].
  destruct a as [|d a]; [discriminate|].
  cbn [String.append String.prefix] in *.
  destruct (ascii_dec c d); [now apply IH | discriminate].
Qed.

Lemma includes_append_l (a b t : string) :
  JS.includes a t = true -> JS.includes (a +++ b) t = true.
Proof.
  induction a as [|c a IH]; cbn [JS.includes]; unfold JS.startsWith.
  - rewrite orb_false_r. intros H. destruct t; [|discriminate].
    destruct b; reflexivity.
  - intros H. apply orb_prop in H.
    cbn [String.append JS.includes]. unfold JS.startsWith.
    destruct H as [H|H].
    + change (String c (a +++ b)) with (String c a +++ b).
      now rewrite (prefix_append_l _ _ b H).
    + rewrite (IH H). apply orb_true_r.
Qed.

Lemma includes_append_r (a b t : string) :
  JS.includes b t = true -> JS.includes (a +++ b) t = true.
Proof.
  intros H. induction a as [|c a IH]; [exact H|].
  cbn [String.append JS.includes]. rewrite IH. apply orb_true_r.
Qed.

Lemma includes_self_append (a b : string) : JS.includes (a +++ b) a = true.
Proof.
  destruct a as [|c a]; [destruct b; reflexivity|].
  cbn [String.append JS.includes]. unfold JS.startsWith.
  change (String c (a +++ b)) with (String c a +++ b).
  now rewrite prefix_append_same.
Qed.

Lemma includes_join (sep : string) (l : list string) (t : string) :
  In t l -> JS.includes (JS.join sep l) t = true.
Proof.
  induction l as [|x r IH]; [contradiction|].
  intros [->|Hin].
  - destruct r as [|y r'].
    + simpl. rewrite <- (append_empty_r t) at 1. apply includes_self_append.
    + change (JS.join sep (t :: y :: r')) with (t +++ sep +++ JS.join sep (y :: r')).
      apply includes_self_append.
  - destruct r as [|y r']; [contradiction|].
    change (JS.join sep (x :: y :: r')) with (x +++ sep +++ JS.join sep (y :: r')).
    apply includes_append_r, includes_append_r. now apply IH.
Qed.

Lemma allChars_join (P : ascii -> bool) (sep : string) (l : list string) :
  allChars P sep = true ->
  (forall k, In k l -> allChars P k = true) ->
  allChars P (JS.join sep l) = true.
Proof.
  intros Hsep. induction l as [|x r IH]; intros Hl; [reflexivity|].
  destruct r as [|y r'].
  - simpl. apply Hl. now left.
  - change (JS.join sep (x :: y :: r')) with (x +++ sep +++ JS.join sep (y :: r')).
    rewrite !allChars_append, Hsep, (Hl x (or_introl eq_refl)).
    rewrite IH; [reflexivity|]. intros k Hk. apply Hl. now right.
Qed.

Lemma productOfLine_keyword_lower (line k : string) :
  In k (keywords (productOfLine line)) -> allChars isLower k = true.
Proof.
  intros Hk.
  change (keywords (productOfLine line))
    with (extractKeywords (name (productOfLine line))) in Hk.
  apply extractKeywords_In in Hk. rewrite productOfLine_name_lower in Hk.
  destruct Hk as [Hk _].
  assert (Hlow : allChars isLower (name (productOfLine line)) = true).
  { unfold productOfLine. cbn [name]. apply toLowerCase_isLower. }
  now destruct (splitWsFrom_pieces isLower false _ k Hlow Hk).
Qed.

(** For an index entry the lower-casing in [productText] changes nothing. *)
Lemma productOfLine_text (line : string) :
  productText (productOfLine line)
  = name (productOfLine line) +++ " "
    +++ JS.join " " (keywords (productOfLine line)).
Proof.
  unfold productText. apply isLower_fixed.
  rewrite !allChars_append. apply andb_true_intro. split.
  - unfold productOfLine. cbn [name]. apply toLowerCase_isLower.
  - apply andb_true_intro. split; [reflexivity|].
    apply allChars_join; [reflexivity|].
    intros k. apply productOfLine_keyword_lower.
Qed.

(** X10: for an entry of the index, a search term that is one of the entry's
    keywords also occurs in the entry's text, so the three bonuses come
    together: such a term scores 10 + 3 + 15. *)
Theorem keyword_match_scores_full :
  forall (productData : string) (e : ProductMatch) (term : string),
    In e (buildProductIndex productData) ->
    JS.arrIncludes (keywords e) term = true ->
    JS.includes (productText e) term = true
    /\ termScore (productText e) (keywords e) term = 10 + 3 + 15.
Proof.
  intros productData e term Hin Hkw.
  destruct (buildProductIndex_In _ _ Hin) as (line & _ & _ & ->).
  assert (Hinc : JS.includes (productText (productOfLine line)) term = true).
  { rewrite productOfLine_text. apply includes_append_r, includes_append_r.
    apply includes_join. now apply arrIncludes_In. }
  split; [exact Hinc|].
  unfold termScore. rewrite Hinc, Hkw.
  rewrite substring_head, (includes_firstChars _ _ _ Hinc). reflexivity.
Qed.

Lemma keyword_match_scores_full_witness :
  In carEntry (buildProductIndex catalogTwoCars)
  /\ JS.arrIncludes (keywords carEntry) "car" = true
  /\ termScore (productText carEntry) (keywords carEntry) "car" = 10 + 3 + 15.
Proof.
  assert (Hin : In carEntry (buildProductIndex catalogTwoCars)).
  { vm_compute. auto. }
  assert (Hkw : JS.arrIncludes (keywords carEntry) "car" = true) by reflexivity.
  split; [exact Hin|]. split; [exact Hkw|].
  exact (proj2 (keyword_match_scores_full catalogTwoCars carEntry "car" Hin Hkw)).
Defined.

(* ===================================================================== *)
(** ** Product matcher: the state between calls *)
(* ===================================================================== *)

Lemma getSmartProductContext_state st now query productData :
  snd (getSmartProductContext st now query productData)
  = refreshIndex st now productData.
Proof.
  unfold getSmartProductContext. rewrite findRelevantProducts_unfold.
  destruct (match extractSearchTerms (JS.toLowerCase query) with
            | [] => []
            | _ :: _ => _
            end); reflexivity.
Qed.

Lemma refreshIndex_cases st now productData :
  (refreshIndex st now productData = st
   /\ productIndex st <> None
   /\ now - indexLastUpdated st <= INDEX_CACHE_TTL)
  \/ refreshIndex st now productData
     = {| productIndex := Some (buildProductIndex productData);
          indexLastUpdated := now |}.
Proof.
  unfold refreshIndex. destruct (productIndex st) as [idx|] eqn:E; [|now right].
  destruct (Z.gtb_spec (now - indexLastUpdated st) INDEX_CACHE_TTL).
  - now right.
  - left. repeat split; [discriminate | lia].
Qed.

Lemma reachedWith_built (seen : list string) (st : IndexState) :
  reachedWith seen st ->
  forall idx, productIndex st = Some idx ->
              exists catalog, In catalog seen /\ idx = buildProductIndex catalog.
Proof.
  assert (Hstep : forall seen st now productData,
             (forall idx, productIndex st = Some idx ->
                          exists catalog, In catalog seen
                                          /\ idx = buildProductIndex catalog) ->
             forall idx, productIndex (refreshIndex st now productData) = Some idx ->
                         exists catalog, In catalog (productData :: seen)
                                         /\ idx = buildProductIndex catalog).
  { intros seen0 st0 now productData IH idx.
    destruct (refreshIndex_cases st0 now productData) as [(-> & _ & _)| ->].
    - intros Hidx. destruct (IH idx Hidx) as (catalog & Hin & Hb).
      exists catalog. split; [now right | exact Hb].
    - cbn [productIndex]. intros Hidx. injection Hidx as <-.
      exists productData. split; [now left | reflexivity]. }
  induction 1 as [|seen st now query productData limit _ IH
                  |seen st now query productData _ IH].
  - discriminate.
  - rewrite findRelevantProducts_unfold. cbn [snd]. now apply Hstep.
  - rewrite getSmartProductContext_state. now apply Hstep.
Qed.

Lemma isPrefixOf_In {A : Type} (p l : list A) (x : A) :
  isPrefixOf p l -> In x p -> In x l.
Proof.
  intros [rest ->] H. apply in_or_app. now left.
Qed.

Lemma returned_from_index st now query productData limit p :
  In p (fst (findRelevantProducts st now query productData limit)) ->
  0 < score p
  /\ exists e, In e (currentIndex (refreshIndex st now productData))
               /\ p = withScore (extractSearchTerms (JS.toLowerCase query)) e.
Proof.
  rewrite findRelevantProducts_unfold. cbn [fst].
  destruct (extractSearchTerms (JS.toLowerCase query)) as [|t ts] eqn:Et;
    [contradiction|].
  intros Hin. apply (isPrefixOf_In _ _ _ (slice_prefix _ _)) in Hin.
  apply (Permutation_in _ (sort_perm score _)) in Hin.
  apply filter_In in Hin. destruct Hin as [Hin Hpos].
  split; [lia|].
  unfold scoredIndex in Hin. rewrite Et in Hin. apply in_map_iff in Hin.
  destruct Hin as (e & <- & He). eauto.
Qed.

(** X11: in every state that calls of [findRelevantProducts] and
    [getSmartProductContext] can reach, every product a call returns is the
    index entry of a line of one of the catalog texts passed in, to this
    call or to an earlier one, and that line starts with the product URL
    prefix: the returned [url] is that line, and the score is above 0. *)
Theorem returned_products_come_from_catalog :
  forall (seen : list string) (st : IndexState) (now : Z)
         (query productData : string) (limit : Z) (p : ProductMatch),
    reachedWith seen st ->
    In p (fst (findRelevantProducts st now query productData limit)) ->
    0 < score p
    /\ exists catalog line,
         In catalog (productData :: seen)
         /\ In line (JS.splitChar LF catalog)
         /\ JS.startsWith line productPrefix = true
         /\ url p = line
         /\ p = withScore (extractSearchTerms (JS.toLowerCase query))
                          (productOfLine line).
Proof.
  intros seen st now query productData limit p Hreach Hin.
  destruct (returned_from_index _ _ _ _ _ _ Hin) as (Hpos & e & He & ->).
  split; [exact Hpos|].
  assert (Hreach' : reachedWith (productData :: seen)
                                (refreshIndex st now productData)).
  { pose proof (reached_find seen st now query productData limit Hreach) as H.
    now rewrite findRelevantProducts_unfold in H. }
  unfold currentIndex in He.
  destruct (productIndex (refreshIndex st now productData)) as [idx|] eqn:Eidx;
    [|contradiction].
  destruct (reachedWith_built _ _ Hreach' idx Eidx) as (catalog & Hseen & ->).
  destruct (buildProductIndex_In _ _ He) as (line & Hline & Hpre & ->).
  exists catalog, line. auto 10.
Qed.

Lemma returned_products_come_from_catalog_witness :
  reachedWith [catalogTwoCars] warmState
  /\ In (withScore ["car"; "vehicle"]%string carEntry)
        (fst (findRelevantProducts warmState 1000 "car" EmptyString 3))
  /\ 0 < score (withScore ["car"; "vehicle"]%string carEntry)
  /\ exists catalog line,
       In catalog [EmptyString; catalogTwoCars]
       /\ In line (JS.splitChar LF catalog)
       /\ JS.startsWith line productPrefix = true
       /\ url (withScore ["car"; "vehicle"]%string carEntry) = line
       /\ withScore ["car"; "vehicle"]%string carEntry
          = withScore (extractSearchTerms (JS.toLowerCase "car"))
                      (productOfLine line).
Proof.
  assert (Hreach : reachedWith [catalogTwoCars] warmState).
  { apply reached_find, reached_initial. }
  assert (Hin : In (withScore ["car"; "vehicle"]%string carEntry)
                   (fst (findRelevantProducts warmState 1000 "car" EmptyString 3))).
  { vm_compute. auto. }
  split; [exact Hreach|]. split; [exact Hin|].
  exact (returned_products_come_from_catalog
           [catalogTwoCars] warmState 1000 "car" EmptyString 3 _ Hreach Hin).
Defined.

(** X12: after any call of [findRelevantProducts] at time [now] the index
    is present and no older than its TTL; the call either left the state as
    it was or replaced it by the index of the catalog text it was given,
    stamped [now]. *)
Theorem index_fresh_after_call :
  forall (st : IndexState) (now : Z) (query productData : string) (limit : Z),
    let st' := snd (findRelevantProducts st now query productData limit) in
    productIndex st' <> None
    /\ now - indexLastUpdated st' <= INDEX_CACHE_TTL
    /\ (st' = st
        \/ st' = {| productIndex := Some (buildProductIndex productData);
                    indexLastUpdated := now |}).
Proof.
  intros st now query productData limit st'. subst st'.
  rewrite findRelevantProducts_unfold. cbn [snd].
  destruct (refreshIndex_cases st now productData) as [(-> & Hsome & Hage)| ->].
  - auto.
  - cbn [productIndex indexLastUpdated]. unfold INDEX_CACHE_TTL.
    repeat split; [discriminate | lia | now right].
Qed.

(* ===================================================================== *)
(** ** Product context for the prompt *)
(* ===================================================================== *)

Lemma filter_nil_iff {A : Type} (f : A -> bool) (l : list A) :
  filter f l = [] <-> forall x, In x l -> f x = false.
Proof.
  induction l as [|a r IH]; simpl.
  - split; [contradiction | reflexivity].
  - destruct (f a) eqn:E; split.
    + discriminate.
    + intros H. rewrite (H a (or_introl eq_refl)) in E. discriminate.
    + intros H x [<-|Hx]; [exact E | now apply IH].
    + intros H. apply IH. intros x Hx. apply H. now right.
Qed.

Lemma slice_nil_inv {A : Type} (l : list A) (limit : Z) :
  0 < limit -> JS.slice l 0 limit = [] -> l = [].
Proof.
  intros Hl. rewrite slice_from_zero. destruct l as [|x r]; [reflexivity|].
  unfold JS.relIndex. destruct (Z.ltb_spec limit 0); [lia|].
  cbn [List.length].
  destruct (Z.to_nat (Z.min limit (Z.of_nat (S (List.length r))))) eqn:E; [lia|].
  discriminate.
Qed.

Lemma sort_nil_inv {A : Type} (cmp : A -> A -> Z) (l : list A) :
  JS.sort cmp l = [] -> l = [].
Proof.
  destruct l as [|x r]; [reflexivity|]. simpl.
  destruct (JS.sort cmp r) as [|y r']; simpl; [discriminate|].
  destruct (cmp x y <=? 0); discriminate.
Qed.

Lemma calculateRelevanceScore_nonneg (searchTerms : list string) (p : ProductMatch) :
  0 <= calculateRelevanceScore searchTerms p.
Proof.
  pose proof (score_at_least_bonus searchTerms p).
  pose proof (addPopularity_range (productText p)). lia.
Qed.

(** No index entry scores above 0 exactly when nothing is returned. *)
Lemma findRelevantProducts_empty_iff st now query productData limit :
  0 < limit ->
  (fst (findRelevantProducts st now query productData limit) = []
   <-> extractSearchTerms (JS.toLowerCase query) = []
       \/ Forall (fun p => calculateRelevanceScore
                             (extractSearchTerms (JS.toLowerCase query)) p = 0)
                 (currentIndex (refreshIndex st now productData))).
Proof.
  intros Hl. rewrite findRelevantProducts_unfold. cbn [fst]. unfold scoredIndex.
  destruct (extractSearchTerms (JS.toLowerCase query)) as [|t ts].
  - split; auto.
  - set (terms := t :: ts). split.
    + intros H. right. apply slice_nil_inv in H; [|exact Hl].
      apply sort_nil_inv in H. rewrite filter_nil_iff in H.
      apply Forall_forall. intros p Hp.
      specialize (H (withScore terms p) (in_map _ _ _ Hp)).
      cbn [withScore score] in H.
      pose proof (calculateRelevanceScore_nonneg terms p).
      destruct (Z.gtb_spec (calculateRelevanceScore terms p) 0); [discriminate | lia].
    + intros [H|H]; [discriminate|].
      assert (Hnone : filter (fun p => score p >? 0)
                             (map (withScore terms)
                                  (currentIndex (refreshIndex st now productData)))
                      = []).
      { apply filter_nil_iff. intros x Hx. apply in_map_iff in Hx.
        destruct Hx as (p & <- & Hp). rewrite Forall_forall in H.
        cbn [withScore score]. rewrite (H p Hp). reflexivity. }
      rewrite Hnone. simpl JS.sort. apply slice_nil.
Qed.

(** X13: [getSmartProductContext] changes the index state as
    [findRelevantProducts] with limit 8 does; when that call finds products,
    at most 8, the text is the heading line, one line per found product in
    the order found, an empty line and the closing instruction, and nothing
    else; and the text is the fixed no-recommendation sentence exactly when
    the query yields no search term or no entry of the index scores above 0
    for it. *)
Theorem getSmartProductContext_sentinel :
  forall (st : IndexState) (now : Z) (query productData : string),
    let terms := extractSearchTerms (JS.toLowerCase query) in
    let found := findRelevantProducts st now query productData 8 in
    let text := fst (getSmartProductContext st now query productData) in
    snd (getSmartProductContext st now query productData) = snd found
    /\ Z.of_nat (List.length (fst found)) <= 8
    /\ (fst found <> [] ->
        text = "RELEVANT PRODUCTS (recommend max 3):" +++ String LF EmptyString
               +++ JS.join (String LF EmptyString) (map renderProduct (fst found))
               +++ String LF EmptyString +++ String LF EmptyString
               +++ "IMPORTANT: Only recommend products from this list. Verify URLs exist before suggesting.")
    /\ (text = noRecommendation
        <-> terms = []
            \/ Forall (fun p => calculateRelevanceScore terms p = 0)
                      (currentIndex (snd found))).
Proof.
  intros st now query productData terms found text. subst terms found text.
  split.
  { rewrite getSmartProductContext_state.
    now rewrite findRelevantProducts_unfold. }
  split.
  { rewrite findRelevantProducts_unfold. cbn [fst].
    destruct (extractSearchTerms (JS.toLowerCase query)); [simpl; lia|].
    apply slice_length_le. lia. }
  split.
  { unfold getSmartProductContext.
    destruct (findRelevantProducts st now query productData 8) as [found st'].
    cbn [fst]. destruct found as [|p ps]; [congruence | reflexivity]. }
  replace (snd (findRelevantProducts st now query productData 8))
    with (refreshIndex st now productData)
    by (now rewrite findRelevantProducts_unfold).
  rewrite <- (findRelevantProducts_empty_iff st now query productData 8) by lia.
  unfold getSmartProductContext.
  destruct (findRelevantProducts st now query productData 8) as [found st'].
  cbn [fst]. destruct found as [|p ps].
  - split; reflexivity.
  - cbn [fst]. split; intros H; discriminate H.
Qed.

Lemma getSmartProductContext_sentinel_witness :
  (extractSearchTerms (JS.toLowerCase "the best for you") = []
   /\ fst (getSmartProductContext warmState 1000 "the best for you" EmptyString)
      = noRecommendation)
  /\ (fst (findRelevantProducts warmState 1000 "car" EmptyString 8) <> []
      /\ fst (getSmartProductContext warmState 1000 "car" EmptyString)
         = "RELEVANT PRODUCTS (recommend max 3):" +++ String LF EmptyString
           +++ "- [Bike Car](https://thegurtoys.com/products/gurtoy-bike-car)"
           +++ String LF EmptyString
           +++ "- [Car](https://thegurtoys.com/products/gurtoy-car)"
           +++ String LF EmptyString +++ String LF EmptyString
           +++ "IMPORTANT: Only recommend products from this list. Verify URLs exist before suggesting.").
Proof.
  assert (H : extractSearchTerms (JS.toLowerCase "the best for you") = [])
    by (vm_compute; reflexivity).
  assert (Hfound : fst (findRelevantProducts warmState 1000 "car" EmptyString 8) <> [])
    by (vm_compute; discriminate).
  split.
  - split; [exact H|].
    apply (proj2 (proj2 (proj2 (getSmartProductContext_sentinel
                                  warmState 1000 "the best for you" EmptyString)))).
    left. exact H.
  - split; [exact Hfound|].
    rewrite (proj1 (proj2 (proj2 (getSmartProductContext_sentinel
                                    warmState 1000 "car" EmptyString))) Hfound).
    vm_compute. reflexivity.
Defined.





(* ===================================================================== *)
(** ** Context cache: loader calls, status and clearing *)
(* ===================================================================== *)

Lemma validEntry_Some cache now c :
  validEntry cache now = Some c -> cache = Some c /\ now < expires c.
Proof.
  unfold validEntry. destruct cache as [c0|]; [|discriminate].
  destruct (Z.ltb_spec now (expires c0)) as [Hlt|Hge]; [|discriminate].
  intros Heq. injection Heq as <-. auto.
Qed.

(** X15: one call of [getCachedContextFiles] calls the loader at most once,
    and not at all exactly when the cache holds an entry that has not
    expired; data it returns is the cached data or what the loader just
    gave, nothing else. *)
Theorem loader_called_at_most_once :
  forall (cache : option CachedContext) (now : Z) (load : Loader),
    let out := getCachedContextFiles cache now load in
    (loaderCalls (trace out) <= 1)%nat
    /\ (loaderCalls (trace out) = 0%nat
        <-> exists c, cache = Some c /\ now < expires c)
    /\ (forall d, settled out = Fulfilled (Some d) ->
                  (exists c, cache = Some c /\ data c = d)
                  \/ load tt = Fulfilled (Some d)).
Proof.
  intros cache now load out. subst out. unfold getCachedContextFiles.
  destruct (validEntry cache now) as [c|] eqn:Hv.
  - apply validEntry_Some in Hv. destruct Hv as [-> Hlt].
    cbn. split; [lia|]. split; [split; eauto|].
    intros d Hd. injection Hd as <-. eauto.
  - assert (Hno : ~ exists c, cache = Some c /\ now < expires c).
    { intros (c & -> & Hlt). unfold validEntry in Hv.
      destruct (Z.ltb_spec now (expires c)); [discriminate | lia]. }
    destruct (load tt) as [[fresh|]|e]; [| destruct cache as [c|] |];
      cbn; (split; [lia|]); (split; [split; [discriminate | tauto]|]);
      intros d Hd; try discriminate Hd; injection Hd as <-; eauto.
Qed.

Lemma loader_called_at_most_once_witness :
  settled (getCachedContextFiles (Some expiredEntry) 400000 loadNull)
  = Fulfilled (Some docsA)
  /\ ((exists c, Some expiredEntry = Some c /\ data c = docsA)
      \/ loadNull tt = Fulfilled (Some docsA)).
Proof.
  assert (H : settled (getCachedContextFiles (Some expiredEntry) 400000 loadNull)
              = Fulfilled (Some docsA)) by reflexivity.
  split; [exact H|].
  exact (proj2 (proj2 (loader_called_at_most_once (Some expiredEntry) 400000 loadNull))
               docsA H).
Defined.

Lemma cacheReachable_window (cache : option CachedContext) :
  cacheReachable cache ->
  forall c, cache = Some c -> expires c = lastModified c + CACHE_TTL.
Proof.
  induction 1 as [|cache now load _ IH|cache _ IH]; intros c Hc.
  - discriminate.
  - unfold getCachedContextFiles in Hc.
    destruct (validEntry cache now); [now apply IH|].
    destruct (load tt) as [[fresh|]|e]; [| destruct cache |]; cbn in Hc;
      try (now apply IH); try discriminate.
    injection Hc as <-. reflexivity.
  - discriminate.
Qed.

(** X16: every entry that calls of the cache operations can leave in the
    cache expires exactly one TTL after it was stored; so [getCacheStatus]
    reports, at any time, a time to expiry that is the TTL minus the age,
    and "expired" exactly from age = TTL on. *)
Theorem cache_window_is_ttl :
  forall (cache : option CachedContext) (c : CachedContext),
    cacheReachable cache ->
    cache = Some c ->
    expires c = lastModified c + CACHE_TTL
    /\ forall (toISOString : Z -> string) (now : Z),
         getCacheStatus toISOString cache now
         = StatusEntry
             (if now - lastModified c >=? CACHE_TTL then "expired" else "valid")
             (now - lastModified c)
             (CACHE_TTL - (now - lastModified c))
             (toISOString (lastModified c)).
Proof.
  intros cache c Hreach ->.
  pose proof (cacheReachable_window _ Hreach c eq_refl) as Hwin.
  split; [exact Hwin|]. intros toISOString now. unfold getCacheStatus.
  rewrite Hwin. f_equal; [|lia].
  destruct (Z.geb_spec now (lastModified c + CACHE_TTL)),
           (Z.geb_spec (now - lastModified c) CACHE_TTL); try reflexivity; lia.
Qed.

Lemma cache_window_is_ttl_witness :
  let cache := cacheAfter (getCachedContextFiles None 1000 (loadOk docsA)) in
  cacheReachable cache
  /\ exists c, cache = Some c /\ expires c = lastModified c + CACHE_TTL.
Proof.
  intros cache.
  assert (Hreach : cacheReachable cache) by (apply cache_get, cache_initial).
  split; [exact Hreach|].
  eexists. split; [reflexivity|].
  exact (proj1 (cache_window_is_ttl cache _ Hreach eq_refl)).
Defined.

(** X17: [getCacheStatus] says "valid" exactly when a call of
    [getCachedContextFiles] at the same instant would answer from the cache
    without calling its loader; otherwise it says "expired", or reports the
    empty cache. *)
Theorem status_valid_iff_served_from_cache :
  forall (toISOString : Z -> string) (cache : option CachedContext) (now : Z)
         (load : Loader),
    ((exists age left since,
         getCacheStatus toISOString cache now = StatusEntry "valid" age left since)
     <-> loaderCalls (trace (getCachedContextFiles cache now load)) = 0%nat)
    /\ (getCacheStatus toISOString cache now = StatusEmpty <-> cache = None).
Proof.
  intros toISOString cache now load. split.
  - unfold getCacheStatus, getCachedContextFiles, validEntry.
    destruct cache as [c|].
    + destruct (Z.ltb_spec now (expires c)), (Z.geb_spec now (expires c));
        try lia.
      * cbn. split; eauto.
      * split.
        -- intros (age & left & since & Hst). discriminate Hst.
        -- destruct (load tt) as [[fresh|]|e]; cbn; discriminate.
    + split.
      * intros (age & left & since & Hst). discriminate Hst.
      * destruct (load tt) as [[fresh|]|e]; cbn; discriminate.
  - unfold getCacheStatus. destruct cache; split; congruence.
Qed.

Lemma status_valid_iff_served_from_cache_witness :
  loaderCalls (trace (getCachedContextFiles (Some expiredEntry) 1000 loadThrows)) = 0%nat
  /\ exists age left since,
       getCacheStatus (fun _ => "1970-01-01T00:00:00.000Z"%string)
                      (Some expiredEntry) 1000
       = StatusEntry "valid" age left since.
Proof.
  assert (H : loaderCalls (trace (getCachedContextFiles (Some expiredEntry) 1000
                                    loadThrows)) = 0%nat) by reflexivity.
  split; [exact H|].
  exact (proj2 (proj1 (status_valid_iff_served_from_cache
                         (fun _ => "1970-01-01T00:00:00.000Z"%string)
                         (Some expiredEntry) 1000 loadThrows)) H).
Defined.

(** X18: after [clearContextCache] the cache is empty, and the next call of
    [getCachedContextFiles] calls its loader once and settles exactly as the
    loader does: no data from before the clearing is served, not even when
    the loader fails. *)
Theorem clear_forces_fresh_load :
  forall (toISOString : Z -> string) (cache : option CachedContext) (now : Z)
         (load : Loader),
    let out := getCachedContextFiles (clearContextCache cache) now load in
    getCacheStatus toISOString (clearContextCache cache) now = StatusEmpty
    /\ loaderCalls (trace out) = 1%nat
    /\ settled out = load tt.
Proof.
  intros toISOString cache now load out. subst out.
  unfold clearContextCache, getCachedContextFiles. cbn [validEntry].
  split; [reflexivity|].
  destruct (load tt) as [[fresh|]|e]; cbn; auto.
Qed.

(* ===================================================================== *)
(** ** The context loader *)
(* ===================================================================== *)

Lemma complete_Some (cf : PartialFiles) (all : ContextFiles) :
  complete cf = Some all ->
  pProduct cf = Some (product all) /\ pContact cf = Some (contact all)
  /\ pPrivacy cf = Some (privacy all) /\ pDetail cf = Some (detail all)
  /\ completeDocs all.
Proof.
  unfold complete, completeDocs.
  destruct (pProduct cf) as [a|], (pContact cf) as [b|],
           (pPrivacy cf) as [c|], (pDetail cf) as [d|]; cbn [present];
    rewrite ?andb_false_r; try discriminate.
  destruct (JS.truthy a) eqn:Ea, (JS.truthy b) eqn:Eb,
           (JS.truthy c) eqn:Ec, (JS.truthy d) eqn:Ed; cbn; try discriminate.
  intros H. injection H as <-. cbn. auto 10.
Qed.

Lemma complete_intro (a b c d : string) :
  JS.truthy a = true -> JS.truthy b = true ->
  JS.truthy c = true -> JS.truthy d = true ->
  complete {| pProduct := Some a; pContact := Some b;
              pPrivacy := Some c; pDetail := Some d |}
  = Some {| product := a; contact := b; privacy := c; detail := d |}.
Proof.
  intros Ha Hb Hc Hd. unfold complete. cbn [present pProduct pContact pPrivacy pDetail].
  now rewrite Ha, Hb, Hc, Hd.
Qed.

Lemma loadContextFiles_cases (env : Env) :
  exists r, loadContextFiles env = Fulfilled r
            /\ (r = None \/ exists cf, r = complete cf).
Proof.
  unfold loadContextFiles, loadContextFilesBody.
  destruct (development env).
  - destruct (complete (loadLocal env noFiles)) as [all|] eqn:E.
    + exists (Some all). split; [reflexivity|]. right. eauto.
    + destruct (promiseAll (map (fetchFile env) files)) as [results|e].
      * eexists. split; [reflexivity|]. right. eauto.
      * exists None. auto.
  - destruct (promiseAll (map (fetchFile env) files)) as [results|e].
    + eexists. split; [reflexivity|]. right. eauto.
    + exists None. auto.
Qed.

(** X19: [loadContextFiles] never rejects, whatever the local files and the
    storage service do, and what it returns is null or a set of four
    non-empty documents. *)
Theorem loadContextFiles_null_or_complete :
  forall env : Env,
    exists r, loadContextFiles env = Fulfilled r
              /\ forall cf, r = Some cf -> completeDocs cf.
Proof.
  intros env. destruct (loadContextFiles_cases env) as (r & Hr & Hcases).
  exists r. split; [exact Hr|]. intros cf ->.
  destruct Hcases as [Hnone|(p & Hp)]; [discriminate|].
  symmetry in Hp. now apply complete_Some in Hp.
Qed.

Lemma loadContextFiles_null_or_complete_witness :
  exists r, loadContextFiles storageEnv = Fulfilled r
            /\ forall cf, r = Some cf -> completeDocs cf.
Proof.
  exact (loadContextFiles_null_or_complete storageEnv).
Defined.

(** X20: in development, when the four local files are readable and
    non-empty, they are the result and the storage service plays no part;
    outside development the local files play no part. *)
Theorem loadContextFiles_local_first :
  (forall (local : string -> LocalRead)
          (storage : string -> Settled DownloadReply) (a b c d : string),
      local "product.txt" = LocalContent a ->
      local "contact.txt" = LocalContent b ->
      local "privacy.txt" = LocalContent c ->
      local "detail.txt" = LocalContent d ->
      JS.truthy a = true -> JS.truthy b = true ->
      JS.truthy c = true -> JS.truthy d = true ->
      loadContextFiles {| development := true; readLocal := local;
                          download := storage |}
      = Fulfilled (Some {| product := a; contact := b;
                           privacy := c; detail := d |}))
  /\ (forall (local local' : string -> LocalRead)
             (storage : string -> Settled DownloadReply),
        loadContextFiles {| development := false; readLocal := local;
                            download := storage |}
        = loadContextFiles {| development := false; readLocal := local';
                              download := storage |}).
Proof.
  split.
  - intros local storage a b c d Ha Hb Hc Hd Ta Tb Tc Td.
    unfold loadContextFiles, loadContextFilesBody.
    cbn [development].
    assert (Hlocal : loadLocal {| development := true; readLocal := local;
                                  download := storage |} noFiles
                     = {| pProduct := Some a; pContact := Some b;
                          pPrivacy := Some c; pDetail := Some d |}).
    { unfold loadLocal, files. cbn [fold_left readLocal].
      rewrite Ha, Hb, Hc, Hd. reflexivity. }
    rewrite Hlocal, (complete_intro _ _ _ _ Ta Tb Tc Td). reflexivity.
  - reflexivity.
Qed.

Lemma loadContextFiles_local_first_witness :
  loadContextFiles localEnv
  = Fulfilled (Some {| product := "contents of product.txt";
                       contact := "contents of contact.txt";
                       privacy := "contents of privacy.txt";
                       detail := "contents of detail.txt" |}).
Proof.
  apply (proj1 loadContextFiles_local_first
               (readLocal localEnv) (download localEnv)
               "contents of product.txt" "contents of contact.txt"
               "contents of privacy.txt" "contents of detail.txt");
    reflexivity.
Defined.

Lemma fetchFile_name (env : Env) (fileName n t : string) :
  fetchFile env fileName = Fulfilled (Some (n, t)) -> n = fileName.
Proof.
  unfold fetchFile.
  destruct (download env fileName) as [first|e]; [|discriminate].
  destruct (if (replyError first && String.eqb fileName "contact.txt")%bool
            then download env "Contact.txt" else Fulfilled first) as [reply|e];
    [|discriminate].
  destruct (replyError reply); [discriminate|].
  destruct (replyData reply) as [[text|e]|]; try discriminate.
  intros H. injection H as <- _. reflexivity.
Qed.

(** X21: outside development, [loadContextFiles] returns documents exactly
    when each of the four downloads (for the contact file after the retry
    under its capitalised name) gave a text and none of the texts is empty,
    and the documents are those texts; one missing, failed or empty download
    makes the result null. *)
Theorem loadContextFiles_needs_all_four :
  forall (env : Env) (cf : ContextFiles),
    development env = false ->
    (loadContextFiles env = Fulfilled (Some cf)
     <-> fetchFile env "product.txt" = Fulfilled (Some ("product.txt"%string, product cf))
         /\ fetchFile env "contact.txt" = Fulfilled (Some ("contact.txt"%string, contact cf))
         /\ fetchFile env "privacy.txt" = Fulfilled (Some ("privacy.txt"%string, privacy cf))
         /\ fetchFile env "detail.txt" = Fulfilled (Some ("detail.txt"%string, detail cf))
         /\ completeDocs cf).
Proof.
  intros env cf Hprod.
  unfold loadContextFiles, loadContextFilesBody. rewrite Hprod.
  unfold files. cbn [map promiseAll].
  destruct (fetchFile env "product.txt") as [[[n1 t1]|]|e1] eqn:E1;
  destruct (fetchFile env "contact.txt") as [[[n2 t2]|]|e2] eqn:E2;
  destruct (fetchFile env "privacy.txt") as [[[n3 t3]|]|e3] eqn:E3;
  destruct (fetchFile env "detail.txt") as [[[n4 t4]|]|e4] eqn:E4;
  try (apply fetchFile_name in E1; subst n1);
  try (apply fetchFile_name in E2; subst n2);
  try (apply fetchFile_name in E3; subst n3);
  try (apply fetchFile_name in E4; subst n4);
  try solve [ split;
              [ intros H; try discriminate H; injection H as H;
                apply complete_Some in H; destruct H as (H1 & H2 & H3 & H4 & _);
                cbv in H1, H2, H3, H4; discriminate
              | intros (H1 & H2 & H3 & H4 & _); discriminate ] ].
  change (storeResults
            [Some ("product.txt"%string, t1); Some ("contact.txt"%string, t2);
             Some ("privacy.txt"%string, t3); Some ("detail.txt"%string, t4)]
            noFiles)
    with {| pProduct := Some t1; pContact := Some t2;
            pPrivacy := Some t3; pDetail := Some t4 |}.
  split.
  - intros H. injection H as H. apply complete_Some in H.
    cbn in H. destruct H as (H1 & H2 & H3 & H4 & Hall).
    injection H1 as ->. injection H2 as ->. injection H3 as ->. injection H4 as ->.
    auto 10.
  - intros (H1 & H2 & H3 & H4 & (Ta & Tb & Tc & Td)).
    injection H1 as ->. injection H2 as ->. injection H3 as ->. injection H4 as ->.
    rewrite (complete_intro _ _ _ _ Ta Tb Tc Td). now destruct cf.
Qed.

Lemma loadContextFiles_needs_all_four_witness :
  development storageEnv = false
  /\ loadContextFiles storageEnv = Fulfilled (Some storedDocs).
Proof.
  split; [reflexivity|].
  apply (proj2 (loadContextFiles_needs_all_four storageEnv storedDocs eq_refl)).
  repeat split; reflexivity.
Defined.

Lemma cacheServed_complete (cache : option CachedContext) :
  cacheServed cache -> forall c, cache = Some c -> completeDocs (data c).
Proof.
  induction 1 as [|cache now env _ IH|cache _ IH]; intros c Hc.
  - discriminate.
  - unfold getCachedContextFiles in Hc.
    destruct (validEntry cache now); [now apply IH|].
    destruct (loadContextFiles_cases env) as (r & Hr & Hcases).
    rewrite Hr in Hc. destruct r as [fresh|].
    + cbn in Hc. injection Hc as <-. cbn [data].
      destruct Hcases as [Hn|(p & Hp)]; [discriminate|].
      symmetry in Hp. now apply complete_Some in Hp.
    + destruct cache; cbn in Hc; [now apply IH | discriminate].
  - discriminate.
Qed.

(** X22: with [loadContextFiles] as its loader, as in the request handlers,
    [getCachedContextFiles] never rejects, and in every cache state these
    calls can reach, what it returns is null or four non-empty documents. *)
Theorem cached_context_is_complete :
  forall (cache : option CachedContext) (now : Z) (env : Env),
    cacheServed cache ->
    exists r,
      settled (getCachedContextFiles cache now (fun _ => loadContextFiles env))
      = Fulfilled r
      /\ forall cf, r = Some cf -> completeDocs cf.
Proof.
  intros cache now env Hserved.
  pose proof (cacheServed_complete _ Hserved) as Hinv.
  unfold getCachedContextFiles.
  destruct (validEntry cache now) as [c|] eqn:Hv.
  - apply validEntry_Some in Hv. destruct Hv as [-> _].
    eexists. split; [reflexivity|]. intros cf H. injection H as <-. now apply Hinv.
  - destruct (loadContextFiles_cases env) as (r & Hr & Hcases). rewrite Hr.
    destruct r as [fresh|].
    + eexists. split; [reflexivity|]. intros cf H. injection H as <-.
      destruct Hcases as [Hn|(p & Hp)]; [discriminate|].
      symmetry in Hp. now apply complete_Some in Hp.
    + destruct cache as [c|]; eexists; (split; [reflexivity|]); intros cf H;
        [injection H as <-; now apply Hinv | discriminate].
Qed.

Lemma cached_context_is_complete_witness :
  cacheServed None
  /\ settled (getCachedContextFiles None 1000 (fun _ => loadContextFiles localEnv))
     = Fulfilled (Some {| product := "contents of product.txt";
                          contact := "contents of contact.txt";
                          privacy := "contents of privacy.txt";
                          detail := "contents of detail.txt" |})
  /\ exists r,
       settled (getCachedContextFiles None 1000 (fun _ => loadContextFiles localEnv))
       = Fulfilled r
       /\ forall cf, r = Some cf -> completeDocs cf.
Proof.
  split; [exact served_initial|]. split; [reflexivity|].
  exact (cached_context_is_complete None 1000 localEnv served_initial).
Defined.

(* ===================================================================== *)
(** ** Conversation memory: reading and summarising *)
(* ===================================================================== *)

Lemma lastN_rev {A : Type} (n : nat) (l : list A) :
  lastN n (rev l) = rev (firstn n l).
Proof.
  unfold lastN. rewrite length_rev.
  rewrite <- (firstn_skipn n l) at 2. rewrite rev_app_distr.
  assert (Hlen : (List.length l - n)%nat = List.length (rev (skipn n l))).
  { rewrite length_rev, length_skipn. reflexivity. }
  rewrite Hlen. rewrite skipn_app, skipn_all, Nat.sub_diag. reflexivity.
Qed.

(** X23: [getChatHistory] never fails: a rejected query, an error reply or
    a reply without rows gives the empty history, for which the formatter
    answers with its sentinel; a reply with rows, newest first, gives them
    oldest first, so that the formatter's recent block shows the ten newest
    rows in chronological order. *)
Theorem getChatHistory_feeds_formatter :
  forall (store : string -> Z -> Settled QueryResult) (userId : string) (limit : Z),
    (forall reply,
        store userId limit = Fulfilled reply ->
        queryError reply = false ->
        forall rows,
          queryData reply = Some rows ->
          getChatHistory store userId limit = rev rows
          /\ lastN 10 (getChatHistory store userId limit) = rev (firstn 10 rows))
    /\ ((exists e, store userId limit = Rejected e)
        \/ (exists reply, store userId limit = Fulfilled reply
                          /\ (queryError reply = true \/ queryData reply = None)) ->
        getChatHistory store userId limit = []
        /\ formatChatHistoryForAI (getChatHistory store userId limit)
           = "New conversation - no previous context.").
Proof.
  intros store userId limit. unfold getChatHistory. split.
  - intros reply -> -> rows ->. split; [reflexivity | apply lastN_rev].
  - intros [(e & ->)|(reply & -> & [Herr|Hdata])].
    + split; reflexivity.
    + rewrite Herr. split; reflexivity.
    + rewrite Hdata. destruct (queryError reply); split; reflexivity.
Qed.

Lemma getChatHistory_feeds_formatter_witness :
  getChatHistory storeOk "u" 6 = rev threeRows
  /\ formatChatHistoryForAI (getChatHistory storeDown "u" 6)
     = "New conversation - no previous context.".
Proof.
  split.
  - apply (proj1 (getChatHistory_feeds_formatter storeOk "u" 6)
             {| queryData := Some threeRows; queryError := false |});
      reflexivity.
  - apply (proj2 (getChatHistory_feeds_formatter storeDown "u" 6)).
    left. exists "fetch failed"%string. reflexivity.
Defined.

Lemma fold_left_invariant {A B : Type} (f : A -> B -> A) (P : A -> Prop)
    (l : list B) (a : A) :
  P a -> (forall acc x, In x l -> P acc -> P (f acc x)) -> P (fold_left f l a).
Proof.
  revert a. induction l as [|x r IH]; intros a Ha Hstep; [exact Ha|].
  simpl. apply IH.
  - apply Hstep; [now left | exact Ha].
  - intros acc y Hy. apply Hstep. now right.
Qed.

Lemma prefix_NoDup {A : Type} (p l : list A) :
  isPrefixOf p l -> NoDup l -> NoDup p.
Proof.
  intros [rest ->] H. now apply NoDup_app_remove_r in H.
Qed.

(** X24: [extractInterests] returns at most three interests, without
    repetition, each one a word of the fixed interest list that occurs in
    the lower-cased text of some user turn of the history. *)
Theorem extractInterests_sound :
  forall chatHistory : list Chat,
    (List.length (extractInterests chatHistory) <= 3)%nat
    /\ NoDup (extractInterests chatHistory)
    /\ forall k,
         In k (extractInterests chatHistory) ->
         In k interestKeywords
         /\ exists chat,
              In chat chatHistory /\ role chat = user
              /\ JS.includes (JS.toLowerCase (message chat)) k = true.
Proof.
  intros chatHistory. unfold extractInterests.
  set (found := fold_left _ chatHistory []).
  assert (Hinv : NoDup found
                 /\ forall k, In k found ->
                      In k interestKeywords
                      /\ exists chat,
                           In chat chatHistory /\ role chat = user
                           /\ JS.includes (JS.toLowerCase (message chat)) k = true).
  { subst found. apply fold_left_invariant.
    - split; [constructor | contradiction].
    - intros acc chat Hchat Hacc. unfold isUser.
      destruct (role chat) eqn:Hrole; [|exact Hacc].
      unfold noteInterests. apply fold_left_invariant; [exact Hacc|].
      intros acc' kw Hkw [Hnd Hall].
      destruct (JS.includes (JS.toLowerCase (message chat)) kw) eqn:Hinc;
        [|now split].
      destruct (JS.arrIncludes acc' kw) eqn:Hseen; [now split|].
      apply arrIncludes_not_In in Hseen. cbn [andb negb]. split.
      + apply NoDup_app; [exact Hnd | repeat constructor; auto | ].
        intros x Hx [<-|[]]. contradiction.
      + intros k Hk. apply in_app_or in Hk. destruct Hk as [Hk|[<-|[]]].
        * now apply Hall.
        * split; [exact Hkw|]. exists chat. auto. }
  destruct Hinv as [Hnd Hall].
  pose proof (slice_prefix found 3) as Hpre.
  split.
  { pose proof (slice_length_le found 3). lia. }
  split; [now apply prefix_NoDup with found|].
  intros k Hk. apply Hall. now apply (isPrefixOf_In _ _ _ Hpre).
Qed.

Lemma extractInterests_sound_witness :
  In "doll"%string (extractInterests (rev threeRows))
  /\ In "doll"%string interestKeywords
  /\ exists chat,
       In chat (rev threeRows) /\ role chat = user
       /\ JS.includes (JS.toLowerCase (message chat)) "doll" = true.
Proof.
  assert (H : In "doll"%string (extractInterests (rev threeRows))).
  { vm_compute. auto. }
  split; [exact H|].
  exact (proj2 (proj2 (extractInterests_sound (rev threeRows))) "doll"%string H).
Defined.

Lemma extractChildAge_users (chatHistory : list Chat) :
  extractChildAge (filter isUser chatHistory) = extractChildAge chatHistory.
Proof.
  induction chatHistory as [|chat r IH]; [reflexivity|].
  cbn [filter extractChildAge]. destruct (isUser chat) eqn:E; [|exact IH].
  cbn [extractChildAge]. rewrite E.
  destruct (JS.ageMatch childAgeUnits (message chat)) as [[m1 m2]|];
    [reflexivity | exact IH].
Qed.

Lemma extractInterests_users (chatHistory : list Chat) :
  extractInterests (filter isUser chatHistory) = extractInterests chatHistory.
Proof.
  unfold extractInterests. f_equal. generalize (@nil string) as acc.
  induction chatHistory as [|chat r IH]; intros acc; [reflexivity|].
  cbn [filter fold_left]. destruct (isUser chat) eqn:E.
  - cbn [fold_left]. rewrite E. apply IH.
  - apply IH.
Qed.

(** X25: the context summary of the formatter depends on the user turns
    only: removing every assistant turn from the history changes neither
    the detected child age, nor the interests, nor the summary line. *)
Theorem contextSummary_user_turns_only :
  forall chatHistory : list Chat,
    extractChildAge (filter isUser chatHistory) = extractChildAge chatHistory
    /\ extractInterests (filter isUser chatHistory) = extractInterests chatHistory
    /\ contextSummary (filter isUser chatHistory) = contextSummary chatHistory.
Proof.
  intros chatHistory.
  split; [apply extractChildAge_users|].
  split; [apply extractInterests_users|].
  unfold contextSummary.
  now rewrite extractChildAge_users, extractInterests_users.
Qed.








